(** * Spatial filter engine of Xu_ly_anh: a shallow embedding

    The filters of [src/src/*.js] and [src/unnamed/part_002] read an RGBA8
    raster ([ImageData]: width, height and a flat row-major [Uint8ClampedArray]),
    compute one value per colour channel and pixel from a square neighbourhood,
    and copy the alpha channel.

    Numbers.  Pixel samples, coordinates, kernel sizes and the integer
    accumulators of the Mean, Median, Min, Max and Midpoint filters are [Z]:
    they are small integers, exact in binary64.  [Math.round(s / c)] of two
    such integers is modelled on [Q]: the binary64 quotient of two integers
    below 2^53 rounds to the same integer as the exact rational.  The
    power-mean family and the Gaussian convolution are modelled on the
    real numbers [R] (binary64 arithmetic idealised as exact), except for
    the binary64 embedding of [createGaussianKernel] in module [Binary64]. *)

From Stdlib Require Import ZArith QArith Qround Qpower List Lia Bool.
Import ListNotations.

Open Scope Z_scope.

(** ** JavaScript helpers *)

(** [lo, lo+1, ..., lo+n-1] *)
Fixpoint zrange (lo : Z) (n : nat) : list Z :=
  match n with
  | O => []
  | S n' => lo :: zrange (lo + 1) n'
  end.

(** The values taken by [i] in [for (let i = a; i <= b; i++)]. *)
Definition loop_incl (a b : Z) : list Z := zrange a (Z.to_nat (b - a + 1)).

(** The values taken by [i] in [for (let i = a; i < b; i++)]. *)
Definition loop_lt (a b : Z) : list Z := zrange a (Z.to_nat (b - a)).

(** [Math.round] (round half up) of a rational number. *)
Definition Math_round (q : Q) : Z := Qfloor (q + (1 # 2)).

(** [Math.max(lo, Math.min(hi, v))] *)
Definition clamp (lo hi v : Z) : Z := Z.max lo (Z.min hi v).

(** Storing an integer into a [Uint8ClampedArray] cell. *)
Definition toUint8Clamp (v : Z) : Z := clamp 0 255 v.

(** [a < b] on numbers held as rationals. *)
Definition Qltb (a b : Q) : bool := negb (Qle_bool b a).

(** [Math.max(lo, Math.min(hi, v))] on numbers held as rationals. *)
Definition clampQ (lo hi v : Q) : Q :=
  let m := if Qltb hi v then hi else v in
  if Qltb m lo then lo else m.

(** Storing a number into a [Uint8ClampedArray] cell (ECMAScript
    ToUint8Clamp): clamp to [0, 255], then round half to even. *)
Definition toUint8ClampQ (x : Q) : Z :=
  if Qle_bool x 0 then 0
  else if Qle_bool 255 x then 255
  else
    let f := Qfloor x in
    if Qltb (inject_Z f + (1 # 2)) x then f + 1
    else if Qltb x (inject_Z f + (1 # 2)) then f
    else if Z.even f then f else f + 1.

(** [ta[i] = v] on a typed array: a write beyond the length is ignored. *)
Fixpoint typedArraySet (l : list Z) (i : nat) (v : Z) : list Z :=
  match l, i with
  | [], _ => []
  | _ :: t, O => v :: t
  | x :: t, S i' => x :: typedArraySet t i' v
  end.

(** Reading [data[i]] of a typed array (in range for every index the
    filters compute on a well-formed image). *)
Definition at_ (d : list Z) (i : Z) : Z := nth (Z.to_nat i) d 0.

(** [new Uint8ClampedArray(len)] followed by the writes of a nested
    row-major loop, which store the listed values at offsets
    [0, 1, 2, ...] in this order; a typed array ignores writes beyond its
    length and keeps 0 where nothing was written. *)
Definition typedArrayFrom (len : nat) (writes : list Z) : list Z :=
  map (fun i => nth i writes 0) (seq 0 len).

(** ** Data model *)

Record ImageData := mkImageData {
  width : Z;
  height : Z;
  data : list Z
}.

(** A raster as [getImageData] returns it. *)
Definition wf_imageb (img : ImageData) : bool :=
  (0 <=? width img) && (0 <=? height img)
  && (Z.of_nat (length (data img)) =? width img * height img * 4)
  && forallb (fun v => (0 <=? v) && (v <=? 255)) (data img).

(** The alpha value of pixel [(x, y)]. *)
Definition alpha (img : ImageData) (x y : Z) : Z :=
  at_ (data img) ((y * width img + x) * 4 + 3).

Record RGB := mkRGB { r : Z; g : Z; b : Z }.

Inductive error :=
| ValidationError   (* throw new Error('Kernel size phải là số lẻ!') *)
| RangeError        (* new Float32Array(n) with an invalid length *)
| SecurityError.    (* getImageData on a cross-origin (tainted) canvas *)

Inductive result (A : Type) :=
| Ok (a : A)
| Throw (e : error).
Arguments Ok {A} a.
Arguments Throw {A} e.

(** ** Boundary policy

    The statements every aggregator repeats inline:
<<
    if (validX < 0) validX = Math.abs(validX);
    if (validX >= width) validX = width - 1 - (validX - width + 1);
    validX = Math.max(0, Math.min(width - 1, validX));
>>
    (Median, Min, Max and Midpoint write [-newX] instead of
    [Math.abs(newX)], the same value under [newX < 0].) *)
Definition reflectCoord (c n : Z) : Z :=
  let v1 := if c <? 0 then Z.abs c else c in
  let v2 := if v1 >=? n then n - 1 - (v1 - n + 1) else v1 in
  Z.max 0 (Z.min (n - 1) v2).

Definition pixelIndex (w x y : Z) : Z := (y * w + x) * 4.

(** The offsets [pixelIndex] read by the double loop
    [for (dy = -radius; dy <= radius; dy++) for (dx = -radius; dx <= radius; dx++)],
    in loop order. *)
Definition kernelIndices (radius cx cy w h : Z) : list Z :=
  flat_map (fun dy =>
    map (fun dx => pixelIndex w (reflectCoord (cx + dx) w) (reflectCoord (cy + dy) h))
        (loop_incl (- radius) radius))
    (loop_incl (- radius) radius).

(** ** The pixel sweep shared by every filter's [processImageData] *)

Definition pixelWrites (calc : list Z -> Z -> Z -> Z -> Z -> RGB)
    (originalData : list Z) (w h : Z) : list Z :=
  flat_map (fun y =>
    flat_map (fun x =>
      let c := calc originalData x y w h in
      [toUint8Clamp (r c); toUint8Clamp (g c); toUint8Clamp (b c);
       toUint8Clamp (at_ originalData (pixelIndex w x y + 3))])
      (loop_lt 0 w))
    (loop_lt 0 h).

(** [processImageData(imageData, originalData, width, height)]: [newData]
    is filled pixel by pixel, then copied into [imageData.data]. *)
Definition processImageData (calc : list Z -> Z -> Z -> Z -> Z -> RGB)
    (img : ImageData) : ImageData :=
  let originalData := data img in
  let newData := typedArrayFrom (length (data img))
                   (pixelWrites calc originalData (width img) (height img)) in
  mkImageData (width img) (height img) newData.

(** ** MeanFilter (src/src/meanFilter.js) *)

Module MeanFilter.

Record t := mk { kernelSize : Z; radius : Z }.

Definition new (kernelSize : Z) : result t :=
  if Z.rem kernelSize 2 =? 0 then Throw ValidationError
  else Ok (mk kernelSize (kernelSize / 2)).

Definition calculateMeanValues (f : t) (d : list Z) (centerX centerY w h : Z) : RGB :=
  let '(sumR, sumG, sumB, count) :=
    fold_left (fun '(sR, sG, sB, c) i =>
                 (sR + at_ d i, sG + at_ d (i + 1), sB + at_ d (i + 2), c + 1))
              (kernelIndices (radius f) centerX centerY w h) (0, 0, 0, 0) in
  mkRGB (Math_round (inject_Z sumR / inject_Z count))
        (Math_round (inject_Z sumG / inject_Z count))
        (Math_round (inject_Z sumB / inject_Z count)).

Definition process (f : t) (img : ImageData) : ImageData :=
  processImageData (calculateMeanValues f) img.

(** Iteration [k] of the noise loop of [createNoisyTestImage]
    ([i = 4 * k]); [random k] is the [k]-th value of [Math.random()]:
<<
    const noise = (Math.random() - 0.5) * 100;
    data[i] = Math.max(0, Math.min(255, data[i] + noise));
    data[i + 1] = Math.max(0, Math.min(255, data[i + 1] + noise));
    data[i + 2] = Math.max(0, Math.min(255, data[i + 2] + noise));
>> *)
Definition noiseStep (random : nat -> Q) (d : list Z) (k : nat) : list Z :=
  let i := (4 * k)%nat in
  let noise := ((random k - (1 # 2)) * 100)%Q in
  let d1 := typedArraySet d i (toUint8ClampQ (clampQ 0 255 (inject_Z (nth i d 0) + noise))) in
  let d2 := typedArraySet d1 (i + 1)
              (toUint8ClampQ (clampQ 0 255 (inject_Z (nth (i + 1) d1 0) + noise))) in
  typedArraySet d2 (i + 2)
    (toUint8ClampQ (clampQ 0 255 (inject_Z (nth (i + 2) d2 0) + noise))).

(** [createNoisyTestImage(width, height)] from the raster [getImageData]
    returns for the gradient-filled canvas: the loop
    [for (let i = 0; i < data.length; i += 4)] runs [ceil(length / 4)]
    iterations. *)
Definition createNoisyTestImage (random : nat -> Q) (imageData : ImageData) : ImageData :=
  let len := length (data imageData) in
  mkImageData (width imageData) (height imageData)
    (fold_left (noiseStep random) (seq 0 ((len + 3) / 4)) (data imageData)).

End MeanFilter.

(** ** MedianFilter (src/src/medianFilter.js) *)

Module MedianFilter.

Record t := mk { kernelSize : Z; radius : Z }.

Definition new (kernelSize : Z) : result t :=
  if Z.rem kernelSize 2 =? 0 then Throw ValidationError
  else Ok (mk kernelSize (kernelSize / 2)).

(** [new Uint16Array(256).fill(0)] *)
Definition createHistogram : list Z := repeat 0 256.

(** [hist[v]++] on a [Uint16Array]: the stored value wraps modulo 2^16. *)
Fixpoint incr (hist : list Z) (v : nat) : list Z :=
  match hist, v with
  | [], _ => []
  | h :: t, O => ((h + 1) mod 65536) :: t
  | h :: t, S v' => h :: incr t v'
  end.

(** [findMedian]: [for (i = 0; i < 256; i++) { sum += hist[i]; if (sum >= medianIndex) return i; } return 255;] *)
Fixpoint findMedian_from (medianIndex : Z) (hist : list Z) (i sum : Z) : Z :=
  match hist with
  | [] => 255
  | h :: t =>
      let sum' := sum + h in
      if sum' >=? medianIndex then i else findMedian_from medianIndex t (i + 1) sum'
  end.

Definition findMedian (medianIndex : Z) (hist : list Z) : Z :=
  findMedian_from medianIndex hist 0 0.

Definition calculateMedianValues (f : t) (d : list Z) (centerX centerY w h : Z) : RGB :=
  let totalPixels := kernelSize f * kernelSize f in
  let medianIndex := totalPixels / 2 + 1 in
  let '(histR, histG, histB) :=
    fold_left (fun '(hR, hG, hB) index =>
                 (incr hR (Z.to_nat (at_ d index)),
                  incr hG (Z.to_nat (at_ d (index + 1))),
                  incr hB (Z.to_nat (at_ d (index + 2)))))
              (kernelIndices (radius f) centerX centerY w h)
              (createHistogram, createHistogram, createHistogram) in
  mkRGB (findMedian medianIndex histR) (findMedian medianIndex histG)
        (findMedian medianIndex histB).

Definition process (f : t) (img : ImageData) : ImageData :=
  processImageData (calculateMedianValues f) img.

End MedianFilter.

(** ** MaxFilter and MinFilter (src/src/maxFilter.js) *)

Module MaxFilter.

Record t := mk { kernelSize : Z; radius : Z }.

Definition new (kernelSize : Z) : result t :=
  if Z.rem kernelSize 2 =? 0 then Throw ValidationError
  else Ok (mk kernelSize (kernelSize / 2)).

Definition calculateMaxValues (f : t) (d : list Z) (centerX centerY w h : Z) : RGB :=
  let '(maxR, maxG, maxB) :=
    fold_left (fun '(mR, mG, mB) index =>
                 (Z.max mR (at_ d index), Z.max mG (at_ d (index + 1)),
                  Z.max mB (at_ d (index + 2))))
              (kernelIndices (radius f) centerX centerY w h) (0, 0, 0) in
  mkRGB maxR maxG maxB.

Definition process (f : t) (img : ImageData) : ImageData :=
  processImageData (calculateMaxValues f) img.

End MaxFilter.

Module MinFilter.

Record t := mk { kernelSize : Z; radius : Z }.

Definition new (kernelSize : Z) : result t :=
  if Z.rem kernelSize 2 =? 0 then Throw ValidationError
  else Ok (mk kernelSize (kernelSize / 2)).

Definition calculateMinValues (f : t) (d : list Z) (centerX centerY w h : Z) : RGB :=
  let '(minR, minG, minB) :=
    fold_left (fun '(mR, mG, mB) index =>
                 (Z.min mR (at_ d index), Z.min mG (at_ d (index + 1)),
                  Z.min mB (at_ d (index + 2))))
              (kernelIndices (radius f) centerX centerY w h) (255, 255, 255) in
  mkRGB minR minG minB.

Definition process (f : t) (img : ImageData) : ImageData :=
  processImageData (calculateMinValues f) img.

End MinFilter.

(** ** MidpointFilter (src/src/midPointFilter.js) *)

Module MidpointFilter.

Record t := mk { kernelSize : Z; radius : Z }.

Definition new (kernelSize : Z) : result t :=
  if Z.rem kernelSize 2 =? 0 then Throw ValidationError
  else Ok (mk kernelSize (kernelSize / 2)).

Definition calculateMidpointValues (f : t) (d : list Z) (centerX centerY w h : Z) : RGB :=
  let '(minR, minG, minB, maxR, maxG, maxB) :=
    fold_left (fun '(nR, nG, nB, xR, xG, xB) index =>
                 let r := at_ d index in
                 let g := at_ d (index + 1) in
                 let b := at_ d (index + 2) in
                 (Z.min nR r, Z.min nG g, Z.min nB b, Z.max xR r, Z.max xG g, Z.max xB b))
              (kernelIndices (radius f) centerX centerY w h) (255, 255, 255, 0, 0, 0) in
  mkRGB (Math_round (inject_Z (minR + maxR) / 2))
        (Math_round (inject_Z (minG + maxG) / 2))
        (Math_round (inject_Z (minB + maxB) / 2)).

Definition process (f : t) (img : ImageData) : ImageData :=
  processImageData (calculateMidpointValues f) img.

End MidpointFilter.

(** ** Filters computed on real numbers *)

From Stdlib Require Import Reals Lra.
From Stdlib Require Qreals.

(** [Math.round] of a real number: [up y] is the integer with
    [y < up y <= y + 1], so [up y - 1] is [Math.floor(y)]. *)
Definition Math_round_R (x : R) : Z := (up (x + / 2) - 1)%Z.

(** [const epsilon = 1e-10] *)
Definition epsilon : R := / IZR (10 ^ 10).

(** [data[i]] as a JavaScript number. *)
Definition sample (d : list Z) (i : Z) : R := IZR (at_ d i).

Local Open Scope R_scope.

(** GeometricMeanFilter (src/src/geometricMeanFilter.js) *)
Module GeometricMeanFilter.

Record t := mk { kernelSize : Z; radius : Z }.

Definition new (kernelSize : Z) : result t :=
  if (Z.rem kernelSize 2 =? 0)%Z then Throw ValidationError
  else Ok (mk kernelSize (kernelSize / 2)).

Definition calculateGeometricMean (f : t) (d : list Z) (centerX centerY w h : Z) : RGB :=
  let '(sumLogR, sumLogG, sumLogB, count) :=
    fold_left (fun '(sR, sG, sB, c) pixelIndex =>
                 (sR + ln (sample d pixelIndex + epsilon),
                  sG + ln (sample d (pixelIndex + 1) + epsilon),
                  sB + ln (sample d (pixelIndex + 2) + epsilon), (c + 1)%Z))
              (kernelIndices (radius f) centerX centerY w h) (0, 0, 0, 0%Z) in
  mkRGB (Math_round_R (exp (sumLogR / IZR count)))
        (Math_round_R (exp (sumLogG / IZR count)))
        (Math_round_R (exp (sumLogB / IZR count))).

Definition process (f : t) (img : ImageData) : ImageData :=
  processImageData (calculateGeometricMean f) img.

End GeometricMeanFilter.

(** HarmonicMeanFilter (src/unnamed/part_002) *)
Module HarmonicMeanFilter.

Record t := mk { kernelSize : Z; radius : Z }.

Definition new (kernelSize : Z) : result t :=
  if (Z.rem kernelSize 2 =? 0)%Z then Throw ValidationError
  else Ok (mk kernelSize (kernelSize / 2)).

Definition calculateHarmonicMean (f : t) (d : list Z) (centerX centerY w h : Z) : RGB :=
  let '(sumInvR, sumInvG, sumInvB, count) :=
    fold_left (fun '(sR, sG, sB, c) pixelIndex =>
                 (sR + 1 / (sample d pixelIndex + epsilon),
                  sG + 1 / (sample d (pixelIndex + 1) + epsilon),
                  sB + 1 / (sample d (pixelIndex + 2) + epsilon), (c + 1)%Z))
              (kernelIndices (radius f) centerX centerY w h) (0, 0, 0, 0%Z) in
  mkRGB (Math_round_R (IZR count / sumInvR))
        (Math_round_R (IZR count / sumInvG))
        (Math_round_R (IZR count / sumInvB)).

Definition process (f : t) (img : ImageData) : ImageData :=
  processImageData (calculateHarmonicMean f) img.

End HarmonicMeanFilter.

(** ContraharmonicMeanFilter (src/src/contraharmonicMeanFilter.js and its
    copy in src/unnamed/part_002); [Math.pow(x, y)] with [x > 0] is
    [Rpower x y]. *)
Module ContraharmonicMeanFilter.

Record t := mk { kernelSize : Z; radius : Z; Q : R }.

Definition new (kernelSize : Z) (Q : R) : result t :=
  if (Z.rem kernelSize 2 =? 0)%Z then Throw ValidationError
  else Ok (mk kernelSize (kernelSize / 2) Q).

Definition calculateContraharmonicMean (f : t) (d : list Z) (centerX centerY w h : Z) : RGB :=
  let '(sP1R, sP1G, sP1B, sPR, sPG, sPB) :=
    fold_left (fun '(aR, aG, aB, bR, bG, bB) pixelIndex =>
                 let r := sample d pixelIndex + epsilon in
                 let g := sample d (pixelIndex + 1) + epsilon in
                 let b := sample d (pixelIndex + 2) + epsilon in
                 (aR + Rpower r (Q f + 1), aG + Rpower g (Q f + 1), aB + Rpower b (Q f + 1),
                  bR + Rpower r (Q f), bG + Rpower g (Q f), bB + Rpower b (Q f)))
              (kernelIndices (radius f) centerX centerY w h) (0, 0, 0, 0, 0, 0) in
  mkRGB (clamp 0 255 (Math_round_R (sP1R / (sPR + epsilon))))
        (clamp 0 255 (Math_round_R (sP1G / (sPG + epsilon))))
        (clamp 0 255 (Math_round_R (sP1B / (sPB + epsilon)))).

Definition process (f : t) (img : ImageData) : ImageData :=
  processImageData (calculateContraharmonicMean f) img.

End ContraharmonicMeanFilter.

(** ** JavaScript numbers *)

From Stdlib Require Import SpecFloat.

(** A JavaScript number is a binary64 value: SpecFloat's [spec_float]
    with 53 bits of precision and maximal exponent 1024. *)
Definition prec64 : Z := 53.
Definition emax64 : Z := 1024.

(** The binary64 number nearest to a rational, ties to even: the number a
    numeric argument holds (the identity on binary64 values). *)
Definition Q2SF (q : Q) : spec_float :=
  match Qnum q with
  | Z0 => S754_zero false
  | Zpos p => SFdiv prec64 emax64 (S754_finite false p 0) (S754_finite false (Qden q) 0)
  | Zneg p => SFdiv prec64 emax64 (S754_finite true p 0) (S754_finite false (Qden q) 0)
  end.

(** The value of a finite binary64 number; [None] for an infinity or NaN. *)
Definition SF2Q (x : spec_float) : option Q :=
  match x with
  | S754_zero _ => Some 0%Q
  | S754_finite s m e => Some (Qred (inject_Z (if s then Z.neg m else Z.pos m) * Qpower 2 e))
  | _ => None
  end.

(** GaussianFilter (src/unnamed/part_002).  [sigma] is a JavaScript number,
    kept as the rational it denotes; [6 * sigma] is a binary64 product. *)

(** [ToInt32], the coercion applied to both operands of [|]. *)
Definition ToInt32 (z : Z) : Z :=
  let m := (z mod 2 ^ 32)%Z in if (m >=? 2 ^ 31)%Z then (m - 2 ^ 32)%Z else m.

(** [a | b] on integral numbers. *)
Definition bitor (a b : Z) : Z := ToInt32 (Z.lor (ToInt32 a) (ToInt32 b)).

Module GaussianFilter.

Record t := mk { sigma : Q; kernelSize : Z; radius : Z; kernel : list R }.

(** [createGaussianKernel()] (the [Float32Array] storage idealised as exact). *)
Definition createGaussianKernel (sigma : R) (kernelSize radius : Z) : list R :=
  let sigma2 := 2 * sigma * sigma in
  let values := map (fun i => let x := IZR (i - radius) in exp (- (x * x) / sigma2))
                    (loop_lt 0 kernelSize) in
  let sum := fold_left Rplus values 0 in
  map (fun v => v / sum) values.

(** [6 * sigma], rounded to binary64. *)
Definition sixSigma (sigma : Q) : spec_float := SFmul prec64 emax64 (Q2SF 6) (Q2SF sigma).

(** [this.kernelSize = Math.ceil(6 * sigma) | 1]: [Math.ceil] of a finite
    binary64 number is the integer above it; [ToInt32] maps an infinite
    product to 0. *)
Definition defaultKernelSize (sigma : Q) : Z :=
  match SF2Q (sixSigma sigma) with
  | Some p => bitor (Qceiling p) 1
  | None => bitor 0 1
  end.

(** [constructor(sigma = 1.0, kernelSize = null)]; [new Float32Array(n)]
    throws a [RangeError] for a negative [n]. *)
Definition new (sigma : Q) (kernelSize : option Z) : result t :=
  let ks :=
    match kernelSize with
    | None => Ok (defaultKernelSize sigma)
    | Some k => if (Z.rem k 2 =? 0)%Z then Throw ValidationError else Ok k
    end in
  match ks with
  | Throw e => Throw e
  | Ok k =>
      if (k <? 0)%Z then Throw RangeError
      else Ok (mk sigma k (k / 2) (createGaussianKernel (Q2R sigma) k (k / 2)))
  end.

Definition convolveHorizontal (f : t) (d : list Z) (centerX centerY w h : Z) : RGB :=
  let '(sumR, sumG, sumB) :=
    fold_left (fun '(sR, sG, sB) i =>
                 let dx := (i - radius f)%Z in
                 let newX := (centerX + dx)%Z in
                 let validX := clamp 0 (w - 1) newX in
                 let pixelIndex := ((centerY * w + validX) * 4)%Z in
                 let kernelValue := nth (Z.to_nat i) (kernel f) 0 in
                 (sR + sample d pixelIndex * kernelValue,
                  sG + sample d (pixelIndex + 1) * kernelValue,
                  sB + sample d (pixelIndex + 2) * kernelValue))
              (loop_lt 0 (kernelSize f)) (0, 0, 0) in
  mkRGB (Math_round_R (Rmax 0 (Rmin 255 sumR)))
        (Math_round_R (Rmax 0 (Rmin 255 sumG)))
        (Math_round_R (Rmax 0 (Rmin 255 sumB))).

Definition convolveVertical (f : t) (d : list Z) (centerX centerY w h : Z) : RGB :=
  let '(sumR, sumG, sumB) :=
    fold_left (fun '(sR, sG, sB) i =>
                 let dy := (i - radius f)%Z in
                 let newY := (centerY + dy)%Z in
                 let validY := clamp 0 (h - 1) newY in
                 let pixelIndex := ((validY * w + centerX) * 4)%Z in
                 let kernelValue := nth (Z.to_nat i) (kernel f) 0 in
                 (sR + sample d pixelIndex * kernelValue,
                  sG + sample d (pixelIndex + 1) * kernelValue,
                  sB + sample d (pixelIndex + 2) * kernelValue))
              (loop_lt 0 (kernelSize f)) (0, 0, 0) in
  mkRGB (Math_round_R (Rmax 0 (Rmin 255 sumR)))
        (Math_round_R (Rmax 0 (Rmin 255 sumG)))
        (Math_round_R (Rmax 0 (Rmin 255 sumB))).

(** [applyHorizontalConvolution] then [applyVerticalConvolution] on the
    intermediate buffer, then the copy into [imageData.data]. *)
Definition process (f : t) (img : ImageData) : ImageData :=
  let w := width img in
  let h := height img in
  let len := length (data img) in
  let horizontalData := typedArrayFrom len (pixelWrites (convolveHorizontal f) (data img) w h) in
  let finalData := typedArrayFrom (length horizontalData)
                     (pixelWrites (convolveVertical f) horizontalData w h) in
  mkImageData w h (typedArrayFrom len finalData).

End GaussianFilter.

Local Close Scope R_scope.

(** ** The filter kinds and [applyFilter] *)

Inductive Filter :=
| Mean (f : MeanFilter.t)
| Median (f : MedianFilter.t)
| Min (f : MinFilter.t)
| Max (f : MaxFilter.t)
| Midpoint (f : MidpointFilter.t)
| GeometricMean (f : GeometricMeanFilter.t)
| HarmonicMean (f : HarmonicMeanFilter.t)
| ContraharmonicMean (f : ContraharmonicMeanFilter.t)
| Gaussian (f : GaussianFilter.t).

(** The pixel computation every [applyFilter] runs on the raster it read. *)
Definition process (flt : Filter) (img : ImageData) : ImageData :=
  match flt with
  | Mean f => MeanFilter.process f img
  | Median f => MedianFilter.process f img
  | Min f => MinFilter.process f img
  | Max f => MaxFilter.process f img
  | Midpoint f => MidpointFilter.process f img
  | GeometricMean f => GeometricMeanFilter.process f img
  | HarmonicMean f => HarmonicMeanFilter.process f img
  | ContraharmonicMean f => ContraharmonicMeanFilter.process f img
  | Gaussian f => GaussianFilter.process f img
  end.

(** The image element handed to [applyFilter]: its size, and its pixels as
    [ctx.getImageData] returns them, or [None] when the canvas is tainted
    by a cross-origin source and [getImageData] throws. *)
Record Source := mkSource { srcWidth : Z; srcHeight : Z; srcPixels : option (list Z) }.

(** The canvas [applyFilter] resolves with. *)
Inductive Canvas :=
| Filtered (img : ImageData)
  (** [putImageData] of the filtered raster *)
| CssBlur (w h : Z) (blurPx : Q).
  (** [applySimpleFilter]: the source drawn through [ctx.filter = 'blur(..px)'] *)

Inductive Outcome :=
| Resolved (c : Canvas)
| Rejected (e : error).

(** [applySimpleFilter(imageElement, canvas, ctx)]: [blur(1px)], or
    [blur(${this.sigma}px)] for the Gaussian filter. *)
Definition applySimpleFilter (flt : Filter) (w h : Z) : Canvas :=
  match flt with
  | Gaussian f => CssBlur w h (GaussianFilter.sigma f)
  | _ => CssBlur w h 1
  end.

(** The [catch (corsError)] branch of each class's [applyFilter]:
    MinFilter, MaxFilter and MidpointFilter call [reject(corsError)], the
    other classes [resolve(this.applySimpleFilter(...))]. *)
Definition onCorsError (flt : Filter) (w h : Z) : Outcome :=
  match flt with
  | Min _ | Max _ | Midpoint _ => Rejected SecurityError
  | _ => Resolved (applySimpleFilter flt w h)
  end.

Definition applyFilter (flt : Filter) (src : Source) : Outcome :=
  let w := srcWidth src in
  let h := srcHeight src in
  match srcPixels src with
  | None => onCorsError flt w h
  | Some d => Resolved (Filtered (process flt (mkImageData w h d)))
  end.

(** ** Binary64 embedding of [createGaussianKernel] *)

From Stdlib Require Uint63.
From Stdlib Require Import PrimFloat FloatOps SpecFloat.

Module Binary64.

Local Open Scope float_scope.

(** A JavaScript number holding an integer below 2^53 in magnitude. *)
Definition of_Z (z : Z) : float :=
  if (z <? 0)%Z then - of_uint63 (Uint63.of_Z (- z)) else of_uint63 (Uint63.of_Z z).

(** [Math.exp].  ECMAScript fixes the results at NaN, +-0 and +-Infinity
    and leaves the others implementation-approximated; the approximation
    here halves the argument below 1/2, sums the Taylor series to degree 17
    and squares back. *)
Fixpoint halve (fuel : nat) (y : float) (n : nat) : float * nat :=
  match fuel with
  | O => (y, n)
  | S fuel' => if abs y <=? 0.5 then (y, n) else halve fuel' (y / 2) (S n)
  end.

Fixpoint taylor (k : nat) (y acc : float) : float :=
  match k with
  | O => acc
  | S k' => taylor k' y (1 + y * acc / of_Z (Z.of_nat k))
  end.

Fixpoint square_n (n : nat) (x : float) : float :=
  match n with
  | O => x
  | S n' => square_n n' (x * x)
  end.

Definition Math_exp (x : float) : float :=
  if is_nan x then nan
  else if is_zero x then 1
  else if x =? infinity then infinity
  else if x =? neg_infinity then 0
  else let '(y, n) := halve 1100 x O in square_n n (taylor 17 y 1).

(** Storing a number into a [Float32Array] cell ([Math.fround]):
    round to nearest even binary32. *)
Definition fround (x : float) : float :=
  match Prim2SF x with
  | S754_finite s m e =>
      match binary_round 24 128 s m e with
      | S754_finite s' m' e' =>
          SF2Prim (binary_normalize 53 1024 (if s' then Zneg m' else Zpos m') e' s')
      | S754_infinity s' => if s' then neg_infinity else infinity
      | S754_zero s' => if s' then neg_zero else zero
      | S754_nan => nan
      end
  | _ => x
  end.

(** [createGaussianKernel()]: [kernel[i] = value] stores into the
    [Float32Array], [sum += value] adds the binary64 value, and
    [kernel[i] /= sum] divides the stored binary32 value and stores again. *)
Definition createGaussianKernel (sigma : float) (kernelSize radius : Z) : list float :=
  let sigma2 := 2 * sigma * sigma in
  let values := map (fun i => let x := of_Z (i - radius) in Math_exp (- (x * x) / sigma2))
                    (loop_lt 0 kernelSize) in
  let kernel := map fround values in
  let sum := fold_left add values 0 in
  map (fun k => fround (k / sum)) kernel.

(** The sum of the kernel entries, in binary64. *)
Definition kernelSum (kernel : list float) : float := fold_left add kernel 0.

(** [|sum - 1| <= 1e-6] *)
Definition sumsToOne (kernel : list float) : bool := abs (kernelSum kernel - 1) <=? 0x1.0c6f7a0b5ed8dp-20.

End Binary64.

(** ** Test rasters *)

(** The 3x3 raster whose pixels are all [(200, 200, 200, 255)] except the
    corner [(cx, cy)], which is [(0, 0, 0, 255)]. *)
Definition cornerImage (cx cy : Z) : ImageData :=
  mkImageData 3 3
    (flat_map (fun y => flat_map (fun x =>
       if (x =? cx) && (y =? cy) then [0; 0; 0; 255] else [200; 200; 200; 255])
       (zrange 0 3)) (zrange 0 3)).

(** Sorting samples, to state order statistics. *)
Fixpoint insertSorted (v : Z) (l : list Z) : list Z :=
  match l with
  | [] => [v]
  | h :: t => if v <=? h then v :: l else h :: insertSorted v t
  end.

Definition sortZ (l : list Z) : list Z := fold_right insertSorted [] l.

(** The [k]-th smallest (from 1) of a list of samples. *)
Definition kthSmallest (k : Z) (l : list Z) : Z := nth (Z.to_nat (k - 1)) (sortZ l) 0.

(** The channel-[c] samples a kernel of radius [radius] reads around [(cx, cy)]. *)
Definition channelSamples (c : Z) (radius cx cy w h : Z) (d : list Z) : list Z :=
  map (fun i => at_ d (i + c)) (kernelIndices radius cx cy w h).

(** ** Sums and ranges used by the properties of the aggregators *)

(** The sum of [f i] over the sampled offsets [l]: what the accumulating
    loops compute. *)
Fixpoint Zsum (f : Z -> Z) (l : list Z) : Z :=
  match l with [] => 0 | i :: l' => f i + Zsum f l' end.

Fixpoint Rsum (f : Z -> R) (l : list Z) : R :=
  match l with [] => 0%R | i :: l' => (f i + Rsum f l')%R end.

(** Every cell of the buffer lies in [0, 255], as in a [Uint8ClampedArray]. *)
Definition bytes_ok (d : list Z) : bool :=
  forallb (fun v => (0 <=? v) && (v <=? 255)) d.

Definition rgb_in_range (c : RGB) : Prop :=
  0 <= r c <= 255 /\ 0 <= g c <= 255 /\ 0 <= b c <= 255.

Definition rgb_within_one (c c' : RGB) : Prop :=
  Z.abs (r c - r c') <= 1 /\ Z.abs (g c - g c') <= 1 /\ Z.abs (b c - b c') <= 1.

(** Channel-wise order of two colours. *)
Definition rgb_le (c c' : RGB) : Prop := r c <= r c' /\ g c <= g c' /\ b c <= b c'.

(** [d] is at most [d'] cell by cell (the two buffers have one length). *)
Fixpoint data_leb (d d' : list Z) : bool :=
  match d, d' with
  | [], [] => true
  | v :: t, v' :: t' => (v <=? v') && data_leb t t'
  | _, _ => false
  end.

(** The negative [255 - v] of every cell of a buffer. *)
Definition invert (d : list Z) : list Z := map (fun v => 255 - v) d.


(** The value the noise loop stores into an R, G or B cell. *)
Definition noisyCell (random : nat -> Q) (d : list Z) (j k : nat) : Z :=
  toUint8ClampQ (clampQ 0 255 (inject_Z (nth j d 0) + (random k - (1 # 2)) * 100)).

(** * Properties *)

(** ** Loops and buffers *)

Lemma length_zrange (lo : Z) (n : nat) : length (zrange lo n) = n.
Proof. revert lo; induction n; intros lo; simpl; auto. Qed.

Lemma nth_zrange (lo : Z) (n j : nat) :
  (j < n)%nat -> nth j (zrange lo n) 0 = lo + Z.of_nat j.
Proof.
  revert lo j; induction n as [|n IH]; intros lo j Hj; [lia|].
  destruct j as [|j]; simpl; [lia|].
  rewrite IH by lia. lia.
Qed.

Lemma In_zrange (lo : Z) (n : nat) (v : Z) :
  In v (zrange lo n) <-> lo <= v < lo + Z.of_nat n.
Proof.
  revert lo; induction n as [|n IH]; intros lo; simpl; [lia|].
  rewrite IH. lia.
Qed.

Lemma length_typedArrayFrom (len : nat) (ws : list Z) :
  length (typedArrayFrom len ws) = len.
Proof. unfold typedArrayFrom. now rewrite length_map, length_seq. Qed.

Lemma nth_typedArrayFrom (len : nat) (ws : list Z) (i : nat) :
  (i < len)%nat -> nth i (typedArrayFrom len ws) 0 = nth i ws 0.
Proof.
  intros Hi. unfold typedArrayFrom.
  pose proof (map_nth (fun i => nth i ws 0) (seq 0 len) 0%nat i) as E.
  cbn beta in E.
  rewrite nth_indep with (d' := nth 0 ws 0) by (rewrite length_map, length_seq; lia).
  rewrite E, seq_nth by lia. reflexivity.
Qed.

Lemma at_typedArrayFrom (len : nat) (ws : list Z) (i : Z) :
  0 <= i < Z.of_nat len -> at_ (typedArrayFrom len ws) i = at_ ws i.
Proof. intros Hi. unfold at_. apply nth_typedArrayFrom. lia. Qed.

(** Reading inside a concatenation of blocks of one length. *)
Lemma nth_flat_map_blocks {A : Type} (f : Z -> list A) (l : list Z) (n j k : nat) (d : A) :
  (forall a, length (f a) = n) -> (j < length l)%nat -> (k < n)%nat ->
  nth (j * n + k) (flat_map f l) d = nth k (f (nth j l 0)) d.
Proof.
  intros Hlen. revert j; induction l as [|a l IH]; intros j Hj Hk; simpl in *; [lia|].
  destruct j as [|j].
  - simpl. rewrite app_nth1 by (rewrite Hlen; lia). reflexivity.
  - rewrite app_nth2 by (rewrite Hlen; lia). rewrite Hlen.
    replace (S j * n + k - n)%nat with (j * n + k)%nat by lia.
    apply IH; lia.
Qed.

Lemma length_flat_map_blocks {A : Type} (f : Z -> list A) (l : list Z) (n : nat) :
  (forall a, length (f a) = n) -> length (flat_map f l) = (length l * n)%nat.
Proof.
  intros Hlen. induction l as [|a l IH]; simpl; auto.
  rewrite length_app, Hlen, IH. lia.
Qed.

(** The four values written for pixel [(x, y)] sit at [pixelIndex w x y]. *)
Lemma nth_pixelWrites calc d w h x y (k : nat) :
  0 <= x < w -> 0 <= y < h -> (k < 4)%nat ->
  nth (Z.to_nat (pixelIndex w x y) + k) (pixelWrites calc d w h) 0 =
  nth k (let c := calc d x y w h in
         [toUint8Clamp (r c); toUint8Clamp (g c); toUint8Clamp (b c);
          toUint8Clamp (at_ d (pixelIndex w x y + 3))]) 0.
Proof.
  intros Hx Hy Hk. unfold pixelWrites.
  set (row := fun y0 : Z => flat_map _ (loop_lt 0 w)).
  assert (Hrow : forall y0, length (row y0) = (Z.to_nat w * 4)%nat).
  { intros y0. unfold row. rewrite length_flat_map_blocks with (n := 4%nat) by reflexivity.
    unfold loop_lt. rewrite length_zrange. lia. }
  replace (Z.to_nat (pixelIndex w x y) + k)%nat
    with (Z.to_nat y * (Z.to_nat w * 4) + (Z.to_nat x * 4 + k))%nat
    by (unfold pixelIndex; nia).
  rewrite nth_flat_map_blocks with (n := (Z.to_nat w * 4)%nat); auto;
    [| unfold loop_lt; rewrite length_zrange; lia | nia].
  unfold loop_lt at 1. rewrite nth_zrange by lia.
  replace (0 + Z.of_nat (Z.to_nat y)) with y by lia.
  unfold row.
  rewrite nth_flat_map_blocks with (n := 4%nat); auto;
    [| unfold loop_lt; rewrite length_zrange; lia].
  unfold loop_lt. rewrite nth_zrange by lia.
  replace (0 + Z.of_nat (Z.to_nat x)) with x by lia.
  reflexivity.
Qed.

Lemma wf_imageb_spec (img : ImageData) :
  wf_imageb img = true ->
  0 <= width img /\ 0 <= height img /\
  Z.of_nat (length (data img)) = width img * height img * 4 /\
  (forall i, (i < length (data img))%nat -> 0 <= nth i (data img) 0 <= 255).
Proof.
  unfold wf_imageb. intros H.
  apply andb_prop in H as [H H4]. apply andb_prop in H as [H H3].
  apply andb_prop in H as [H1 H2].
  apply Z.leb_le in H1. apply Z.leb_le in H2. apply Z.eqb_eq in H3.
  rewrite forallb_forall in H4.
  refine (conj H1 (conj H2 (conj H3 _))).
  intros j Hj. specialize (H4 (nth j (data img) 0) (nth_In _ _ Hj)).
  apply andb_prop in H4 as [H5 H6]. apply Z.leb_le in H5, H6. lia.
Qed.

Lemma toUint8Clamp_id (v : Z) : 0 <= v <= 255 -> toUint8Clamp v = v.
Proof. unfold toUint8Clamp, clamp. lia. Qed.

(** One sweep copies the alpha value of every pixel. *)
Lemma sweep_alpha calc (d : list Z) (w h x y : Z) :
  0 <= x < w -> 0 <= y < h -> Z.of_nat (length d) = w * h * 4 ->
  0 <= at_ d (pixelIndex w x y + 3) <= 255 ->
  at_ (typedArrayFrom (length d) (pixelWrites calc d w h)) (pixelIndex w x y + 3) =
  at_ d (pixelIndex w x y + 3).
Proof.
  intros Hx Hy Hlen Hrange. unfold at_ at 1.
  assert (Hpi : 0 <= pixelIndex w x y) by (unfold pixelIndex; nia).
  replace (Z.to_nat (pixelIndex w x y + 3)) with (Z.to_nat (pixelIndex w x y) + 3)%nat by lia.
  rewrite nth_typedArrayFrom by (unfold pixelIndex in *; nia).
  rewrite nth_pixelWrites by (auto; lia).
  simpl. now apply toUint8Clamp_id.
Qed.

Lemma processImageData_shape calc (img : ImageData) :
  width (processImageData calc img) = width img /\
  height (processImageData calc img) = height img /\
  length (data (processImageData calc img)) = length (data img).
Proof.
  unfold processImageData; simpl. repeat split. apply length_typedArrayFrom.
Qed.

Lemma processImageData_alpha calc (img : ImageData) (x y : Z) :
  wf_imageb img = true -> 0 <= x < width img -> 0 <= y < height img ->
  alpha (processImageData calc img) x y = alpha img x y.
Proof.
  intros Hwf Hx Hy. destruct (wf_imageb_spec img Hwf) as (Hw & Hh & Hlen & Hrange).
  unfold alpha, processImageData; simpl.
  change ((y * width img + x) * 4) with (pixelIndex (width img) x y).
  apply sweep_alpha; auto.
  unfold at_. apply Hrange. unfold pixelIndex. nia.
Qed.

Lemma GaussianFilter_process_shape (f : GaussianFilter.t) (img : ImageData) :
  width (GaussianFilter.process f img) = width img /\
  height (GaussianFilter.process f img) = height img /\
  length (data (GaussianFilter.process f img)) = length (data img).
Proof.
  unfold GaussianFilter.process; simpl. repeat split. apply length_typedArrayFrom.
Qed.

Lemma GaussianFilter_process_alpha (f : GaussianFilter.t) (img : ImageData) (x y : Z) :
  wf_imageb img = true -> 0 <= x < width img -> 0 <= y < height img ->
  alpha (GaussianFilter.process f img) x y = alpha img x y.
Proof.
  intros Hwf Hx Hy. destruct (wf_imageb_spec img Hwf) as (Hw & Hh & Hlen & Hrange).
  unfold alpha, GaussianFilter.process; simpl.
  change ((y * width img + x) * 4) with (pixelIndex (width img) x y).
  assert (Hpi : 0 <= pixelIndex (width img) x y /\
                pixelIndex (width img) x y + 3 < width img * height img * 4)
    by (unfold pixelIndex; nia).
  assert (Hin : 0 <= at_ (data img) (pixelIndex (width img) x y + 3) <= 255)
    by (unfold at_; apply Hrange; lia).
  set (hd := typedArrayFrom (length (data img))
               (pixelWrites (GaussianFilter.convolveHorizontal f) (data img) (width img) (height img))).
  assert (Hh1 : at_ hd (pixelIndex (width img) x y + 3) = at_ (data img) (pixelIndex (width img) x y + 3))
    by (apply sweep_alpha; auto).
  assert (Hlh : length hd = length (data img)) by apply length_typedArrayFrom.
  rewrite at_typedArrayFrom by lia.
  rewrite (sweep_alpha _ hd); [exact Hh1 | exact Hx | exact Hy | |].
  - rewrite Hlh. exact Hlen.
  - rewrite Hh1. exact Hin.
Qed.

Lemma processImageData_frame calc (img : ImageData) :
  wf_imageb img = true ->
  width (processImageData calc img) = width img /\
  height (processImageData calc img) = height img /\
  length (data (processImageData calc img)) = length (data img) /\
  (forall x y, 0 <= x < width img -> 0 <= y < height img ->
     alpha (processImageData calc img) x y = alpha img x y).
Proof.
  intros Hwf. destruct (processImageData_shape calc img) as (H1 & H2 & H3).
  repeat split; auto. intros; now apply processImageData_alpha.
Qed.

Lemma GaussianFilter_process_frame (f : GaussianFilter.t) (img : ImageData) :
  wf_imageb img = true ->
  width (GaussianFilter.process f img) = width img /\
  height (GaussianFilter.process f img) = height img /\
  length (data (GaussianFilter.process f img)) = length (data img) /\
  (forall x y, 0 <= x < width img -> 0 <= y < height img ->
     alpha (GaussianFilter.process f img) x y = alpha img x y).
Proof.
  intros Hwf. destruct (GaussianFilter_process_shape f img) as (H1 & H2 & H3).
  repeat split; auto. intros; now apply GaussianFilter_process_alpha.
Qed.

(** C1: every filter kind keeps the raster's width, height and length, and
    writes at every pixel offset the alpha value it read there. *)
Theorem filters_preserve_alpha_and_shape (flt : Filter) (img : ImageData) :
  wf_imageb img = true ->
  width (process flt img) = width img /\
  height (process flt img) = height img /\
  length (data (process flt img)) = length (data img) /\
  (forall x y, 0 <= x < width img -> 0 <= y < height img ->
     alpha (process flt img) x y = alpha img x y).
Proof.
  intros Hwf.
  destruct flt as [f|f|f|f|f|f|f|f|f]; unfold process;
    first [ exact (GaussianFilter_process_frame f img Hwf)
          | exact (processImageData_frame _ img Hwf) ].
Qed.

(** A 2x2 raster with distinct alpha values, filtered by a 3x3 median. *)
Lemma filters_preserve_alpha_and_shape_witness :
  wf_imageb (mkImageData 2 2 [10;20;30;1; 40;50;60;2; 70;80;90;3; 100;110;120;4]) = true /\
  alpha (process (Median (MedianFilter.mk 3 1))
           (mkImageData 2 2 [10;20;30;1; 40;50;60;2; 70;80;90;3; 100;110;120;4])) 1 1 = 4.
Proof.
  split; [reflexivity|].
  destruct (filters_preserve_alpha_and_shape (Median (MedianFilter.mk 3 1))
             (mkImageData 2 2 [10;20;30;1; 40;50;60;2; 70;80;90;3; 100;110;120;4]) eq_refl)
    as (_ & _ & _ & H).
  rewrite H by (simpl; lia). reflexivity.
Defined.

(** ** Construction *)

Lemma rem2_even (k : Z) : (Z.rem k 2 =? 0) = Z.even k.
Proof.
  destruct (Z.eqb_spec (Z.rem k 2) 0) as [E|E];
    rewrite Z.rem_mod_eq_0, Zmod_even in E by lia;
    destruct (Z.even k); congruence.
Qed.

(** C2: every constructor rejects an even kernel size with the validation
    error before it builds a filter (so before any pixel is read), and
    accepts the sizes 3, 5, 7 and 9 (Gaussian: with any sigma). *)
Theorem constructors_validate_kernel_size :
  (forall k : Z, Z.even k = true ->
     MeanFilter.new k = Throw ValidationError /\
     MedianFilter.new k = Throw ValidationError /\
     MinFilter.new k = Throw ValidationError /\
     MaxFilter.new k = Throw ValidationError /\
     MidpointFilter.new k = Throw ValidationError /\
     GeometricMeanFilter.new k = Throw ValidationError /\
     HarmonicMeanFilter.new k = Throw ValidationError /\
     (forall q : R, ContraharmonicMeanFilter.new k q = Throw ValidationError) /\
     (forall sigma : Q, GaussianFilter.new sigma (Some k) = Throw ValidationError)) /\
  (forall k : Z, In k [3; 5; 7; 9] ->
     MeanFilter.new k = Ok (MeanFilter.mk k (k / 2)) /\
     MedianFilter.new k = Ok (MedianFilter.mk k (k / 2)) /\
     MinFilter.new k = Ok (MinFilter.mk k (k / 2)) /\
     MaxFilter.new k = Ok (MaxFilter.mk k (k / 2)) /\
     MidpointFilter.new k = Ok (MidpointFilter.mk k (k / 2)) /\
     GeometricMeanFilter.new k = Ok (GeometricMeanFilter.mk k (k / 2)) /\
     HarmonicMeanFilter.new k = Ok (HarmonicMeanFilter.mk k (k / 2)) /\
     (forall q : R, ContraharmonicMeanFilter.new k q = Ok (ContraharmonicMeanFilter.mk k (k / 2) q)) /\
     (forall sigma : Q, exists f, GaussianFilter.new sigma (Some k) = Ok f /\
                                  GaussianFilter.kernelSize f = k)).
Proof.
  split.
  - intros k Hk.
    unfold MeanFilter.new, MedianFilter.new, MinFilter.new, MaxFilter.new,
      MidpointFilter.new, GeometricMeanFilter.new, HarmonicMeanFilter.new,
      ContraharmonicMeanFilter.new, GaussianFilter.new.
    rewrite rem2_even, Hk. repeat split; reflexivity.
  - intros k Hk.
    assert (Hrem : (Z.rem k 2 =? 0) = false /\ (k <? 0) = false)
      by (simpl in Hk; intuition subst; split; reflexivity).
    destruct Hrem as [Hrem Hneg].
    unfold MeanFilter.new, MedianFilter.new, MinFilter.new, MaxFilter.new,
      MidpointFilter.new, GeometricMeanFilter.new, HarmonicMeanFilter.new,
      ContraharmonicMeanFilter.new, GaussianFilter.new.
    rewrite Hrem, Hneg. repeat split; try reflexivity.
    intros sigma. eexists. split; reflexivity.
Qed.

Lemma constructors_validate_kernel_size_witness :
  Z.even 4 = true /\ MeanFilter.new 4 = Throw ValidationError /\
  In 7 [3; 5; 7; 9] /\ MedianFilter.new 7 = Ok (MedianFilter.mk 7 3).
Proof.
  destruct constructors_validate_kernel_size as [Heven Hodd].
  split; [reflexivity|]. split; [apply (Heven 4 eq_refl)|].
  split; [simpl; tauto|]. apply (Hodd 7); simpl; tauto.
Defined.

(** ** Boundary policy *)

(** The two reflections applied in sequence, case by case. *)
Lemma reflectCoord_cases (c n : Z) :
  1 <= n ->
  (0 <= c < n -> reflectCoord c n = c) /\
  (- n < c < 0 -> reflectCoord c n = - c) /\
  (n <= c -> reflectCoord c n = Z.max 0 (2 * n - 2 - c)) /\
  (c <= - n -> reflectCoord c n = Z.max 0 (2 * n - 2 + c)) /\
  0 <= reflectCoord c n <= n - 1.
Proof.
  intros Hn. unfold reflectCoord.
  destruct (Z.ltb_spec c 0); [rewrite Z.abs_neq by lia|];
  [destruct (Z.geb_spec (- c) n) | destruct (Z.geb_spec c n)];
  repeat split; intros; lia.
Qed.

(** C3: a coordinate [c] is mapped to [|c|] when [c < 0], then to
    [n - 1 - (c - n + 1)] when the value is [>= n], then clamped into
    [[0, n-1]]; every aggregator reads this neighbourhood, and on the 3x3
    raster of 200s with one black corner, the 3x3 ArithmeticMean at that
    corner is [round(1600 / 9) = 178], the corner pixel being read exactly
    once (reflection, not edge clamping). *)
Theorem boundary_policy_reflects_in_sequence :
  (forall c n : Z,
     reflectCoord c n =
       let v1 := if c <? 0 then Z.abs c else c in
       Z.max 0 (Z.min (n - 1) (if v1 >=? n then n - 1 - (v1 - n + 1) else v1))) /\
  (forall c n : Z, 1 <= n ->
     (0 <= c < n -> reflectCoord c n = c) /\
     (- n < c < 0 -> reflectCoord c n = - c) /\
     (n <= c -> reflectCoord c n = Z.max 0 (2 * n - 2 - c)) /\
     (c <= - n -> reflectCoord c n = Z.max 0 (2 * n - 2 + c)) /\
     0 <= reflectCoord c n <= n - 1) /\
  (forall cx cy : Z, In (cx, cy) [(0, 0); (2, 0); (0, 2); (2, 2)] ->
     count_occ Z.eq_dec (kernelIndices 1 cx cy 3 3) (pixelIndex 3 cx cy) = 1%nat /\
     MeanFilter.calculateMeanValues (MeanFilter.mk 3 1) (data (cornerImage cx cy)) cx cy 3 3 =
       mkRGB (Math_round (1600 # 9)) (Math_round (1600 # 9)) (Math_round (1600 # 9)) /\
     Math_round (1600 # 9) = 178).
Proof.
  split; [|split].
  - intros c n. reflexivity.
  - exact reflectCoord_cases.
  - intros cx cy Hin. simpl in Hin.
    destruct Hin as [H|[H|[H|[H|[]]]]]; injection H as <- <-; vm_compute; auto.
Qed.

Lemma boundary_policy_reflects_in_sequence_witness :
  reflectCoord (-3) 2 = 0 /\ reflectCoord 5 3 = 0 /\
  Math_round (1600 # 9) = 178.
Proof.
  destruct boundary_policy_reflects_in_sequence as (_ & Hc & Hm).
  split; [apply (Hc (-3) 2); lia|]. split; [apply (Hc 5 3); lia|].
  apply (Hm 0 0); simpl; tauto.
Defined.

(** ** Median *)

(** C4 (code_bug): the bins are [Uint16Array] cells, so a bin that counts
    65536 samples or more wraps.  With kernel size 257 (66049 samples) on a
    1x1 raster of value 7, bin 7 holds [66049 mod 65536 = 513], the
    cumulative count never reaches the rank [33025], and [findMedian]
    returns 255, while the 33025-th smallest sample is 7. *)
Theorem median_histogram_wraps_at_65536 :
  MedianFilter.new 257 = Ok (MedianFilter.mk 257 128) /\
  257 * 257 / 2 + 1 = 33025 /\
  MedianFilter.calculateMedianValues (MedianFilter.mk 257 128) [7; 7; 7; 255] 0 0 1 1 =
    mkRGB 255 255 255 /\
  kthSmallest 33025 (channelSamples 0 128 0 0 1 1 [7; 7; 7; 255]) = 7 /\
  data (process (Median (MedianFilter.mk 257 128)) (mkImageData 1 1 [7; 7; 7; 255])) =
    [255; 255; 255; 255].
Proof. repeat split; vm_compute; reflexivity. Qed.

(** ** Gaussian kernel in binary64 *)

(** C5 (code_bug): for [sigma = 1e-170], [2 * sigma * sigma] underflows
    to 0, the centre entry is [Math.exp(-(0 * 0) / 0) = Math.exp(NaN)],
    the sum is NaN and every normalised entry is NaN: the kernel does not
    sum to 1, with kernel size 3 as with the default size 1. *)
Theorem gaussian_kernel_nan_for_tiny_sigma :
  let sigma := 0x1.3529ba7d19eafp-565%float in
  (2 * sigma * sigma = 0)%float /\
  GaussianFilter.defaultKernelSize (1 # 10 ^ 170) = 1 /\
  forallb is_nan (Binary64.createGaussianKernel sigma 3 1) = true /\
  Binary64.sumsToOne (Binary64.createGaussianKernel sigma 3 1) = false /\
  forallb is_nan (Binary64.createGaussianKernel sigma 1 0) = true /\
  Binary64.sumsToOne (Binary64.createGaussianKernel sigma 1 0) = false.
Proof. repeat split; vm_compute; reflexivity. Qed.

(** For comparison, [sigma = 2] (the application's default) with its
    default size 13. *)
Lemma gaussian_kernel_sigma2_sums_to_one :
  GaussianFilter.defaultKernelSize 2 = 13 /\
  Binary64.sumsToOne (Binary64.createGaussianKernel 2 13 6) = true.
Proof. split; vm_compute; reflexivity. Qed.

(** ** Default Gaussian kernel size *)

(** C6 (as stated): [6 * sigma] is a binary64 product, rounded before
    [Math.ceil]: for the number [0.8333333333333334] (exactly
    [7505999378950827 / 2^53]), [6 * sigma] is [5 + 2^-52] but the product
    rounds to [5], and the size is 5, below the exact [6 * sigma]. *)
Lemma default_kernel_size_counterexample :
  ~ (forall sigma : Q, (0 < sigma)%Q ->
       let k := GaussianFilter.defaultKernelSize sigma in
       Z.odd k = true /\ (6 * sigma <= inject_Z k)%Q /\
       (forall m : Z, Z.odd m = true -> (6 * sigma <= inject_Z m)%Q -> k <= m)).
Proof.
  intros H. destruct (H (7505999378950827 # 9007199254740992) ltac:(reflexivity)) as (_ & H2 & _).
  vm_compute in H2. apply H2. reflexivity.
Qed.

Lemma lor_1 (c : Z) : 0 <= c -> Z.lor c 1 = 2 * (c / 2) + 1.
Proof.
  intros Hc. apply Z.bits_inj'. intros n Hn. rewrite Z.lor_spec.
  destruct (Z.eq_dec n 0) as [->|Hn0].
  - rewrite Z.testbit_odd_0. apply orb_true_r.
  - replace n with (Z.succ (n - 1)) by lia.
    rewrite Z.testbit_odd_succ by lia.
    rewrite (Z.div_mod c 2) at 1 by lia.
    destruct (Z.mod_pos_bound c 2 ltac:(lia)) as [Hm1 Hm2].
    assert (E : c mod 2 = 0 \/ c mod 2 = 1) by lia.
    destruct E as [E|E]; rewrite E.
    + rewrite Z.add_0_r, Z.testbit_even_succ by lia.
      replace (Z.testbit 1 (Z.succ (n - 1))) with false; [apply orb_false_r|].
      symmetry. apply Z.bits_above_log2; simpl; lia.
    + rewrite Z.testbit_odd_succ by lia.
      replace (Z.testbit 1 (Z.succ (n - 1))) with false; [apply orb_false_r|].
      symmetry. apply Z.bits_above_log2; simpl; lia.
Qed.

(** A binary64 product by 6 of a positive number is not negative. *)
Definition sf_nonneg (x : spec_float) : Prop :=
  match x with S754_finite s _ _ => s = false | _ => True end.

Lemma binary_round_aux_nonneg (m e : Z) (l : location) :
  sf_nonneg (binary_round_aux prec64 emax64 false m e l).
Proof.
  unfold binary_round_aux.
  destruct (shr_fexp _ _ _ _ _) as [mrs' e'].
  destruct (shr_fexp _ _ _ _ _) as [mrs'' e''].
  destruct (shr_m mrs''); cbn; try exact I.
  destruct (_ <=? _); reflexivity.
Qed.

Lemma Q2SF_nonneg (q : Q) : (0 < q)%Q -> sf_nonneg (Q2SF q).
Proof.
  intros Hq. unfold Q2SF. destruct q as [[|n|n] d]; cbn [Qnum].
  - exact I.
  - unfold SFdiv. destruct (SFdiv_core_binary _ _ _ _ _ _) as [[mz ez] lz].
    apply binary_round_aux_nonneg.
  - unfold Qlt in Hq. simpl in Hq. lia.
Qed.

Lemma sixSigma_nonneg (sigma : Q) : (0 < sigma)%Q -> sf_nonneg (GaussianFilter.sixSigma sigma).
Proof.
  intros Hs. unfold GaussianFilter.sixSigma.
  assert (H6 : Q2SF 6 = S754_finite false 6755399441055744 (-50)) by (vm_compute; reflexivity).
  rewrite H6. pose proof (Q2SF_nonneg sigma Hs) as H.
  destruct (Q2SF sigma) as [sy|sy| |sy my ey]; cbn; try exact I.
  cbn in H. subst sy. apply binary_round_aux_nonneg.
Qed.

Lemma SF2Q_nonneg (x : spec_float) (p : Q) : sf_nonneg x -> SF2Q x = Some p -> (0 <= p)%Q.
Proof.
  intros Hx Hp. destruct x as [s|s| |s m e]; unfold SF2Q in Hp; try discriminate.
  - injection Hp as <-. apply Qle_refl.
  - unfold sf_nonneg in Hx. subst s.
    set (X := (inject_Z (Z.pos m) * Qpower 2 e)%Q) in Hp.
    assert (E : p = Qred X) by congruence. subst p.
    apply (proj2 (Qle_comp 0%Q 0%Q (Qeq_refl 0%Q) (Qred X) X (Qred_correct X))).
    unfold X. apply Qmult_le_0_compat.
    + unfold Qle. simpl. lia.
    + apply Qpower_0_le. unfold Qle. simpl. lia.
Qed.

(** C6 (amended): for [sigma > 0] whose binary64 product [p = 6 * sigma]
    is finite with [Math.ceil(p) < 2^31], the default kernel size is the
    smallest odd integer [>= p], and the constructor without a size stores
    it.  The rounded [p] can lie below the exact [6 * sigma]. *)
Theorem default_kernel_size_smallest_odd (sigma p : Q) :
  (0 < sigma)%Q -> SF2Q (GaussianFilter.sixSigma sigma) = Some p -> Qceiling p < 2 ^ 31 ->
  let k := GaussianFilter.defaultKernelSize sigma in
  Z.odd k = true /\ (p <= inject_Z k)%Q /\
  (forall m : Z, Z.odd m = true -> (p <= inject_Z m)%Q -> k <= m) /\
  (exists f, GaussianFilter.new sigma None = Ok f /\ GaussianFilter.kernelSize f = k).
Proof.
  intros Hpos Hp Hlt. cbv zeta.
  assert (Hp0 : (0 <= p)%Q) by exact (SF2Q_nonneg _ p (sixSigma_nonneg sigma Hpos) Hp).
  set (c := Qceiling p) in *.
  pose proof (Qle_ceiling p) as Hle. fold c in Hle.
  assert (Hc0 : 0 <= c).
  { assert (H1 : (inject_Z 0 <= inject_Z c)%Q) by (eapply Qle_trans; [exact Hp0 | exact Hle]).
    rewrite <- Zle_Qle in H1. exact H1. }
  assert (Hk : GaussianFilter.defaultKernelSize sigma = 2 * (c / 2) + 1).
  { unfold GaussianFilter.defaultKernelSize. rewrite Hp. unfold bitor, ToInt32. fold c.
    rewrite (Z.mod_small c) by lia.
    replace (c >=? 2 ^ 31) with false by (symmetry; rewrite Z.geb_leb; apply Z.leb_gt; lia).
    change (1 mod 2 ^ 32 >=? 2 ^ 31) with false. cbv iota.
    change (1 mod 2 ^ 32) with 1.
    rewrite lor_1 by lia.
    pose proof (Z.mul_div_le c 2 ltac:(lia)).
    pose proof (Z.div_pos c 2 ltac:(lia) ltac:(lia)).
    rewrite Z.mod_small by lia.
    replace (2 * (c / 2) + 1 >=? 2 ^ 31) with false
      by (symmetry; rewrite Z.geb_leb; apply Z.leb_gt; lia).
    reflexivity. }
  rewrite Hk.
  pose proof (Z.div_mod c 2 ltac:(lia)) as Hdm.
  pose proof (Z.mod_pos_bound c 2 ltac:(lia)) as Hmb.
  split; [|split; [|split]].
  - rewrite Z.add_comm, Z.odd_add_mul_2. reflexivity.
  - eapply Qle_trans; [exact Hle|]. rewrite <- Zle_Qle. lia.
  - intros m Hm Hsm.
    assert (Hcm : c <= m).
    { apply Z.lt_pred_le. rewrite Zlt_Qlt.
      eapply Qlt_le_trans; [|exact Hsm]. rewrite <- Z.sub_1_r.
      apply (Qceiling_lt p). }
    rewrite Zodd_mod in Hm. apply Z.eqb_eq in Hm.
    pose proof (Z.div_mod m 2 ltac:(lia)) as Hdm'.
    destruct (Z.eq_dec (c mod 2) 0); lia.
  - unfold GaussianFilter.new. rewrite Hk.
    replace (2 * (c / 2) + 1 <? 0) with false by (symmetry; apply Z.ltb_ge; lia).
    eexists. split; reflexivity.
Qed.

(** At [sigma = 0.8333333333333334] the product rounds to [5]: the size is
    5, while the exact [6 * sigma] exceeds 5. *)
Lemma default_kernel_size_smallest_odd_witness :
  let sigma := 7505999378950827 # 9007199254740992 in
  (0 < sigma)%Q /\ SF2Q (GaussianFilter.sixSigma sigma) = Some 5%Q /\ Qceiling 5 < 2 ^ 31 /\
  GaussianFilter.defaultKernelSize sigma = 5 /\ (5 < 6 * sigma)%Q /\
  Z.odd (GaussianFilter.defaultKernelSize sigma) = true.
Proof.
  cbv zeta.
  destruct (default_kernel_size_smallest_odd (7505999378950827 # 9007199254740992) 5
              ltac:(reflexivity) ltac:(vm_compute; reflexivity) ltac:(vm_compute; reflexivity))
    as (H1 & _).
  split; [reflexivity|]. split; [vm_compute; reflexivity|]. split; [vm_compute; reflexivity|].
  split; [vm_compute; reflexivity|]. split; [vm_compute; reflexivity | exact H1].
Defined.

(** [Math.ceil(6 * sigma) | 1] also goes through [ToInt32]: for
    [sigma = 715827883], [6 * sigma = 2^32 + 2] and the size is 3. *)
Lemma default_kernel_size_int32_wrap :
  GaussianFilter.defaultKernelSize 715827883 = 3.
Proof. vm_compute. reflexivity. Qed.

(** ** Kernel size 1 and the pixel-access fallback *)

Lemma reflectCoord_in_range (c n : Z) : 0 <= c < n -> reflectCoord c n = c.
Proof.
  intros Hc. unfold reflectCoord.
  replace (c <? 0) with false by (symmetry; apply Z.ltb_ge; lia).
  replace (c >=? n) with false by (symmetry; rewrite Z.geb_leb; apply Z.leb_gt; lia).
  lia.
Qed.

Lemma Math_round_inject_Z (v : Z) : Math_round (inject_Z v / inject_Z 1) = v.
Proof.
  unfold Math_round, Qfloor, Qdiv, Qmult, Qplus, Qinv, inject_Z; simpl.
  symmetry. apply Z.div_unique with 1; lia.
Qed.

Lemma kernelIndices_0 (cx cy w h : Z) :
  0 <= cx < w -> 0 <= cy < h -> kernelIndices 0 cx cy w h = [pixelIndex w cx cy].
Proof.
  intros Hx Hy. unfold kernelIndices. change (loop_incl (- 0) 0) with [0].
  simpl. rewrite !Z.add_0_r, (reflectCoord_in_range cx), (reflectCoord_in_range cy) by lia.
  reflexivity.
Qed.

(** C8: kernel size 1 is accepted with radius 0, and the ArithmeticMean
    filter of size 1 leaves the R, G and B value of every pixel of a
    well-formed raster unchanged. *)
Theorem mean_size1_identity (img : ImageData) :
  wf_imageb img = true ->
  MeanFilter.new 1 = Ok (MeanFilter.mk 1 0) /\
  forall (x y : Z) (k : nat), 0 <= x < width img -> 0 <= y < height img -> (k < 3)%nat ->
    at_ (data (process (Mean (MeanFilter.mk 1 0)) img)) (pixelIndex (width img) x y + Z.of_nat k) =
    at_ (data img) (pixelIndex (width img) x y + Z.of_nat k).
Proof.
  intros Hwf. destruct (wf_imageb_spec img Hwf) as (Hw & Hh & Hlen & Hin).
  split; [reflexivity|]. intros x y k Hx Hy Hk.
  assert (Hpi : 0 <= pixelIndex (width img) x y) by (unfold pixelIndex; nia).
  assert (Hlt : (Z.to_nat (pixelIndex (width img) x y) + k < length (data img))%nat)
    by (unfold pixelIndex in *; nia).
  cbn [process]. unfold MeanFilter.process, processImageData. cbn [data width height].
  unfold at_ at 1.
  replace (Z.to_nat (pixelIndex (width img) x y + Z.of_nat k))
    with (Z.to_nat (pixelIndex (width img) x y) + k)%nat by lia.
  rewrite nth_typedArrayFrom by exact Hlt.
  rewrite nth_pixelWrites by (auto; lia).
  unfold MeanFilter.calculateMeanValues. cbn [MeanFilter.radius].
  rewrite kernelIndices_0 by lia. cbn [fold_left]. cbv beta iota.
  rewrite !Z.add_0_l.
  rewrite !Math_round_inject_Z.
  unfold at_.
  replace (Z.to_nat (pixelIndex (width img) x y + 1))
    with (Z.to_nat (pixelIndex (width img) x y) + 1)%nat by lia.
  replace (Z.to_nat (pixelIndex (width img) x y + 2))
    with (Z.to_nat (pixelIndex (width img) x y) + 2)%nat by lia.
  replace (Z.to_nat (pixelIndex (width img) x y + Z.of_nat k))
    with (Z.to_nat (pixelIndex (width img) x y) + k)%nat by lia.
  destruct k as [|[|[|k]]]; [| | | lia]; cbn [nth r g b];
    rewrite ?Nat.add_0_r; apply toUint8Clamp_id; apply Hin; lia.
Qed.

Lemma mean_size1_identity_witness :
  at_ (data (process (Mean (MeanFilter.mk 1 0)) (mkImageData 1 1 [10; 20; 30; 255]))) 1 = 20.
Proof.
  destruct (mean_size1_identity (mkImageData 1 1 [10; 20; 30; 255]) ltac:(vm_compute; reflexivity))
    as [_ H].
  exact (H 0 0 1%nat ltac:(cbn; lia) ltac:(cbn; lia) ltac:(lia)).
Defined.

(** C9: when [getImageData] fails (a cross-origin canvas), Mean, Median,
    GeometricMean, HarmonicMean and ContraharmonicMean resolve with the
    [blur(1px)] approximation, Gaussian with [blur(sigma px)], and Min,
    Max and Midpoint reject with the error. *)
Theorem pixel_access_failure_fallback (src : Source) :
  srcPixels src = None ->
  let fallback px := Resolved (CssBlur (srcWidth src) (srcHeight src) px) in
  (forall f, applyFilter (Mean f) src = fallback 1%Q) /\
  (forall f, applyFilter (Median f) src = fallback 1%Q) /\
  (forall f, applyFilter (GeometricMean f) src = fallback 1%Q) /\
  (forall f, applyFilter (HarmonicMean f) src = fallback 1%Q) /\
  (forall f, applyFilter (ContraharmonicMean f) src = fallback 1%Q) /\
  (forall f, applyFilter (Gaussian f) src = fallback (GaussianFilter.sigma f)) /\
  (forall f, applyFilter (Min f) src = Rejected SecurityError) /\
  (forall f, applyFilter (Max f) src = Rejected SecurityError) /\
  (forall f, applyFilter (Midpoint f) src = Rejected SecurityError).
Proof.
  intros Hnone fallback. unfold fallback, applyFilter. rewrite Hnone.
  repeat split; reflexivity.
Qed.

Lemma pixel_access_failure_fallback_witness :
  applyFilter (Max (MaxFilter.mk 3 1)) (mkSource 4 4 None) = Rejected SecurityError /\
  applyFilter (Mean (MeanFilter.mk 3 1)) (mkSource 4 4 None) = Resolved (CssBlur 4 4 1%Q).
Proof.
  destruct (pixel_access_failure_fallback (mkSource 4 4 None) eq_refl)
    as (H1 & _ & _ & _ & _ & _ & _ & H8 & _).
  split; [exact (H8 _) | exact (H1 _)].
Defined.

(** ** Sums, folds and rounding *)

Ltac tuple_eq := repeat (apply (f_equal2 pair)).

Lemma at_bytes_ok (d : list Z) (i : Z) : bytes_ok d = true -> 0 <= at_ d i <= 255.
Proof.
  intros H. unfold at_. destruct (Nat.lt_ge_cases (Z.to_nat i) (length d)) as [Hl|Hl].
  - unfold bytes_ok in H. rewrite forallb_forall in H.
    specialize (H _ (nth_In _ 0 Hl)). apply andb_prop in H as [H1 H2].
    apply Z.leb_le in H1, H2. lia.
  - rewrite nth_overflow by exact Hl. lia.
Qed.

Lemma length_kernelIndices_pos (rad cx cy w h : Z) :
  0 <= rad -> (1 <= length (kernelIndices rad cx cy w h))%nat.
Proof.
  intros Hr. unfold kernelIndices.
  rewrite length_flat_map_blocks with (n := Z.to_nat (rad - - rad + 1)).
  - unfold loop_incl. rewrite length_zrange. nia.
  - intros a. rewrite length_map. unfold loop_incl. apply length_zrange.
Qed.

Lemma fold_left_inv {A : Type} (F : A -> Z -> A) (P : A -> Prop) (l : list Z) (a : A) :
  P a -> (forall a i, P a -> P (F a i)) -> P (fold_left F l a).
Proof. intros Ha HF. revert a Ha; induction l as [|i l IH]; intros a Ha; simpl; auto. Qed.

Lemma fold_left_sum_Z4 (F : Z * Z * Z * Z -> Z -> Z * Z * Z * Z) (f1 f2 f3 : Z -> Z) :
  (forall a1 a2 a3 c i, F (a1, a2, a3, c) i = (a1 + f1 i, a2 + f2 i, a3 + f3 i, c + 1)) ->
  forall l a1 a2 a3 c, fold_left F l (a1, a2, a3, c) =
    (a1 + Zsum f1 l, a2 + Zsum f2 l, a3 + Zsum f3 l, c + Z.of_nat (length l)).
Proof.
  intros HF l. induction l as [|i l IH]; intros a1 a2 a3 c; simpl.
  - tuple_eq; lia.
  - rewrite HF, IH. tuple_eq; lia.
Qed.

Lemma Zsum_bounds (f : Z -> Z) (l : list Z) :
  (forall i, 0 <= f i <= 255) -> 0 <= Zsum f l <= 255 * Z.of_nat (length l).
Proof.
  intros Hf. induction l as [|i l IH]; simpl; [lia|]. specialize (Hf i). lia.
Qed.

Lemma length_incr (h : list Z) (v : nat) : length (MedianFilter.incr h v) = length h.
Proof. revert v; induction h as [|x h IH]; intros [|v]; simpl; auto. Qed.

Lemma findMedian_from_range (m : Z) (h : list Z) (i s : Z) :
  0 <= i -> i + Z.of_nat (length h) <= 256 -> 0 <= MedianFilter.findMedian_from m h i s <= 255.
Proof.
  revert i s; induction h as [|x h IH]; intros i s H1 H2; simpl in *; [lia|].
  destruct (_ >=? _); [lia | apply IH; lia].
Qed.

Lemma Q2R_inject_Z (z : Z) : Q2R (inject_Z z) = IZR z.
Proof. unfold Q2R, inject_Z. simpl. rewrite Rinv_1. ring. Qed.

Section RealBounds.

Local Open Scope R_scope.

Lemma epsilon_bounds : 0 < epsilon /\ epsilon * 1000000 <= 1.
Proof.
  unfold epsilon. change (10 ^ 10)%Z with 10000000000%Z.
  split; [apply Rinv_0_lt_compat; lra|].
  apply Rmult_le_reg_l with 10000000000; [lra|].
  rewrite <- Rmult_assoc, Rinv_r by lra. lra.
Qed.

Lemma fold_left_sum_R3Z (F : R * R * R * Z -> Z -> R * R * R * Z) (f1 f2 f3 : Z -> R) :
  (forall a1 a2 a3 c i, F (a1, a2, a3, c) i = (a1 + f1 i, a2 + f2 i, a3 + f3 i, (c + 1)%Z)) ->
  forall l a1 a2 a3 c, fold_left F l (a1, a2, a3, c) =
    (a1 + Rsum f1 l, a2 + Rsum f2 l, a3 + Rsum f3 l, (c + Z.of_nat (length l))%Z).
Proof.
  intros HF l. induction l as [|i l IH]; intros a1 a2 a3 c; simpl.
  - tuple_eq; first [ring | lia].
  - rewrite HF, IH. tuple_eq; first [ring | lia].
Qed.

Lemma fold_left_sum_R6 (F : R * R * R * R * R * R -> Z -> R * R * R * R * R * R)
    (f1 f2 f3 f4 f5 f6 : Z -> R) :
  (forall a1 a2 a3 a4 a5 a6 i, F (a1, a2, a3, a4, a5, a6) i =
     (a1 + f1 i, a2 + f2 i, a3 + f3 i, a4 + f4 i, a5 + f5 i, a6 + f6 i)) ->
  forall l a1 a2 a3 a4 a5 a6, fold_left F l (a1, a2, a3, a4, a5, a6) =
    (a1 + Rsum f1 l, a2 + Rsum f2 l, a3 + Rsum f3 l,
     a4 + Rsum f4 l, a5 + Rsum f5 l, a6 + Rsum f6 l).
Proof.
  intros HF l. induction l as [|i l IH]; intros a1 a2 a3 a4 a5 a6; simpl.
  - tuple_eq; ring.
  - rewrite HF, IH. tuple_eq; ring.
Qed.

Lemma Rsum_ext (f g : Z -> R) (l : list Z) : (forall i, f i = g i) -> Rsum f l = Rsum g l.
Proof. intros H. induction l as [|i l IH]; simpl; [reflexivity|]. rewrite H, IH. reflexivity. Qed.

Lemma Rsum_plus (f g : Z -> R) (l : list Z) :
  Rsum (fun i => f i + g i) l = Rsum f l + Rsum g l.
Proof. induction l as [|i l IH]; simpl; [ring|]. rewrite IH. ring. Qed.

Lemma Rsum_const (c : R) (l : list Z) :
  Rsum (fun _ => c) l = c * IZR (Z.of_nat (length l)).
Proof.
  induction l as [|i l IH]; [simpl; ring|]. cbn [Rsum length].
  rewrite IH, Nat2Z.inj_succ, succ_IZR. ring.
Qed.

Lemma Rsum_IZR (f : Z -> Z) (l : list Z) : Rsum (fun i => IZR (f i)) l = IZR (Zsum f l).
Proof. induction l as [|i l IH]; simpl; [reflexivity|]. rewrite IH, plus_IZR. reflexivity. Qed.

Lemma Rsum_bounds (f : Z -> R) (l : list Z) (lo hi : R) :
  (forall i, lo <= f i <= hi) ->
  lo * IZR (Z.of_nat (length l)) <= Rsum f l <= hi * IZR (Z.of_nat (length l)).
Proof.
  intros Hf. induction l as [|i l IH]; [simpl; lra|]. cbn [Rsum length].
  rewrite Nat2Z.inj_succ, succ_IZR. specialize (Hf i). lra.
Qed.

Lemma sample_bounds (d : list Z) (i : Z) : bytes_ok d = true -> 0 <= sample d i <= 255.
Proof.
  intros Hd. unfold sample. destruct (at_bytes_ok d i Hd) as [H1 H2].
  split; [apply (IZR_le 0) | apply (IZR_le _ 255)]; lia.
Qed.

Lemma div_bounds (a n lo hi : R) : 0 < n -> lo * n <= a <= hi * n -> lo <= a / n <= hi.
Proof.
  intros Hn [H1 H2]. unfold Rdiv.
  split; apply (Rmult_le_reg_r n); auto; rewrite Rmult_assoc, Rinv_l, Rmult_1_r by lra; lra.
Qed.

Lemma Math_round_R_spec (x : R) :
  IZR (Math_round_R x) <= x + / 2 < IZR (Math_round_R x) + 1.
Proof. unfold Math_round_R. rewrite minus_IZR. destruct (archimed (x + / 2)). lra. Qed.

Lemma Math_round_R_unique (x : R) (m : Z) :
  IZR m <= x + / 2 < IZR m + 1 -> Math_round_R x = m.
Proof.
  intros H. unfold Math_round_R.
  rewrite <- (tech_up (x + / 2) (m + 1)); [lia | rewrite plus_IZR; lra | rewrite plus_IZR; lra].
Qed.

Lemma Math_round_R_range (x : R) : 0 <= x -> x < 255 + / 2 -> (0 <= Math_round_R x <= 255)%Z.
Proof.
  intros H1 H2. destruct (Math_round_R_spec x) as [A B].
  assert (C1 : IZR (-1) < IZR (Math_round_R x)) by lra.
  assert (C2 : IZR (Math_round_R x) < IZR 256) by lra.
  apply lt_IZR in C1, C2. lia.
Qed.

Lemma Math_round_R_close (x y : R) :
  Rabs (x - y) < 1 -> (Z.abs (Math_round_R x - Math_round_R y) <= 1)%Z.
Proof.
  intros H. destruct (Math_round_R_spec x). destruct (Math_round_R_spec y).
  apply Rabs_def2 in H.
  assert (C1 : IZR (Math_round_R x - Math_round_R y) < IZR 2) by (rewrite minus_IZR; lra).
  assert (C2 : IZR (-2) < IZR (Math_round_R x - Math_round_R y)) by (rewrite minus_IZR; lra).
  apply lt_IZR in C1, C2. lia.
Qed.

Lemma Math_round_Q2R (q : Q) : Math_round q = Math_round_R (Q2R q).
Proof.
  symmetry. apply Math_round_R_unique. unfold Math_round.
  pose proof (Qfloor_le (q + (1 # 2))) as H1. pose proof (Qlt_floor (q + (1 # 2))) as H2.
  apply Qreals.Qle_Rle in H1. apply Qreals.Qlt_Rlt in H2.
  rewrite Q2R_inject_Z, Qreals.Q2R_plus in H1. rewrite Q2R_inject_Z, Qreals.Q2R_plus, plus_IZR in H2.
  replace (Q2R (1 # 2)) with (/ 2) in * by (unfold Q2R; simpl; ring).
  lra.
Qed.

Lemma Math_round_div (s n : Z) :
  (0 < n)%Z -> Math_round (inject_Z s / inject_Z n) = Math_round_R (IZR s / IZR n).
Proof.
  intros Hn. rewrite Math_round_Q2R, Qreals.Q2R_div, !Q2R_inject_Z; [reflexivity|].
  unfold Qeq. simpl. lia.
Qed.

Lemma mean_range (s n : Z) :
  (0 < n)%Z -> (0 <= s <= 255 * n)%Z -> (0 <= Math_round (inject_Z s / inject_Z n) <= 255)%Z.
Proof.
  intros Hn Hs. rewrite Math_round_div by exact Hn.
  assert (Hn' : 0 < IZR n) by (apply (IZR_lt 0); lia).
  assert (Hs' : 0 * IZR n <= IZR s <= 255 * IZR n).
  { rewrite <- !mult_IZR. split; apply IZR_le; lia. }
  destruct (div_bounds _ _ _ _ Hn' Hs'). apply Math_round_R_range; lra.
Qed.

Lemma exp_le_mono (x y : R) : x <= y -> exp x <= exp y.
Proof. intros [H|H]; [left; apply exp_increasing; exact H | right; subst; reflexivity]. Qed.

Lemma ln_le_mono (x y : R) : 0 < x -> x <= y -> ln x <= ln y.
Proof. intros H0 [H|H]; [left; apply ln_increasing; auto | right; subst; reflexivity]. Qed.

Lemma geometric_range (sl : R) (n : Z) :
  (1 <= n)%Z -> ln epsilon * IZR n <= sl <= ln (255 + epsilon) * IZR n ->
  (0 <= Math_round_R (exp (sl / IZR n)) <= 255)%Z.
Proof.
  intros Hn Hs. destruct epsilon_bounds as [E1 E2].
  assert (Hn' : 0 < IZR n) by (apply (IZR_lt 0); lia).
  destruct (div_bounds _ _ _ _ Hn' Hs) as [A B].
  apply exp_le_mono in A, B. rewrite exp_ln in A, B by lra.
  apply Math_round_R_range; lra.
Qed.

Lemma harmonic_bounds (hs : R) (n : Z) :
  (1 <= n)%Z -> / (255 + epsilon) * IZR n <= hs <= / epsilon * IZR n ->
  0 < hs /\ epsilon <= IZR n / hs <= 255 + epsilon.
Proof.
  intros Hn [H1 H2]. destruct epsilon_bounds as [E1 E2].
  assert (Hn' : 1 <= IZR n) by (apply (IZR_le 1); lia).
  assert (Hi : 0 < / (255 + epsilon)) by (apply Rinv_0_lt_compat; lra).
  assert (Hh : 0 < hs) by nra.
  split; [exact Hh|]. unfold Rdiv. split.
  - apply (Rmult_le_reg_r hs); auto. rewrite Rmult_assoc, Rinv_l, Rmult_1_r by lra.
    apply (Rmult_le_reg_l (/ epsilon)); [apply Rinv_0_lt_compat; lra|].
    rewrite <- Rmult_assoc, Rinv_l, Rmult_1_l by lra. lra.
  - apply (Rmult_le_reg_r hs); auto. rewrite Rmult_assoc, Rinv_l, Rmult_1_r by lra.
    apply (Rmult_le_reg_l (/ (255 + epsilon))); auto.
    rewrite <- Rmult_assoc, Rinv_l, Rmult_1_l by lra. lra.
Qed.

Lemma harmonic_range (hs : R) (n : Z) :
  (1 <= n)%Z -> / (255 + epsilon) * IZR n <= hs <= / epsilon * IZR n ->
  (0 <= Math_round_R (IZR n / hs) <= 255)%Z.
Proof.
  intros Hn Hs. destruct epsilon_bounds as [E1 E2].
  destruct (harmonic_bounds hs n Hn Hs) as [_ [A B]].
  apply Math_round_R_range; lra.
Qed.

Lemma clamp_close (a c : Z) :
  (0 <= c <= 255)%Z -> (Z.abs (a - c) <= 1)%Z -> (Z.abs (clamp 0 255 a - c) <= 1)%Z.
Proof. unfold clamp. lia. Qed.

(** Q = 0: [(s + n eps) / (n + eps)] is within [256 eps] of [s / n]. *)
Lemma contraharmonic_Q0_close (s n : Z) (sp1 sp : R) :
  (1 <= n)%Z -> (0 <= s <= 255 * n)%Z ->
  sp1 = IZR s + IZR n * epsilon -> sp = IZR n ->
  (Z.abs (clamp 0 255 (Math_round_R (sp1 / (sp + epsilon))) -
          Math_round (inject_Z s / inject_Z n)) <= 1)%Z.
Proof.
  intros Hn Hs -> ->. destruct epsilon_bounds as [E1 E2].
  apply clamp_close; [apply mean_range; lia|].
  rewrite Math_round_div by lia. apply Math_round_R_close.
  set (x := IZR n). set (y := IZR s).
  assert (Hx : 1 <= x) by (apply (IZR_le 1); lia).
  assert (Hy : 0 <= y <= 255 * x) by (unfold x, y; rewrite <- mult_IZR; split; apply IZR_le; lia).
  set (D := x * (x + epsilon)).
  assert (HD : x * x <= D) by (unfold D; nra).
  set (t := (x * x - y) / D).
  assert (Ht : t * D = x * x - y) by (unfold t; field; unfold D; nra).
  assert (Hdiff : (y + x * epsilon) / (x + epsilon) - y / x = epsilon * t)
    by (unfold t, D; field; lra).
  rewrite Hdiff.
  assert (HD0 : 0 < D) by nra.
  assert (Ht1 : t <= 1).
  { destruct (Rle_or_lt t 1) as [|Hlt]; [assumption|exfalso].
    assert (1 * D < t * D) by (apply Rmult_lt_compat_r; lra). lra. }
  assert (Ht2 : -255 <= t).
  { destruct (Rle_or_lt (-255) t) as [|Hlt]; [assumption|exfalso].
    assert (t * D < -255 * D) by (apply Rmult_lt_compat_r; lra).
    assert (x <= x * x) by nra. lra. }
  assert (epsilon * t <= epsilon * 1) by (apply Rmult_le_compat_l; lra).
  assert (epsilon * (-255) <= epsilon * t) by (apply Rmult_le_compat_l; lra).
  apply Rabs_def1; lra.
Qed.

(** Q = -1: [n / (h + eps)] is within [n eps / h^2] of [n / h]. *)
Lemma contraharmonic_Qm1_close (n : Z) (hs sp1 sp : R) :
  (1 <= n)%Z -> / (255 + epsilon) * IZR n <= hs <= / epsilon * IZR n ->
  sp1 = IZR n -> sp = hs ->
  (Z.abs (clamp 0 255 (Math_round_R (sp1 / (sp + epsilon))) - Math_round_R (IZR n / hs)) <= 1)%Z.
Proof.
  intros Hn Hs -> ->. destruct epsilon_bounds as [E1 E2].
  apply clamp_close; [apply harmonic_range; auto|].
  apply Math_round_R_close.
  destruct (harmonic_bounds hs n Hn Hs) as [Hh _].
  set (x := IZR n).
  assert (Hx : 1 <= x) by (apply (IZR_le 1); lia).
  assert (H256 : x <= 256 * hs).
  { destruct Hs as [Hs _]. fold x in Hs.
    assert (/ 256 <= / (255 + epsilon)) by (apply Rinv_le_contravar; lra).
    assert (/ 256 * x <= / (255 + epsilon) * x) by (apply Rmult_le_compat_r; lra).
    assert (E : 256 * (/ 256 * x) = x) by field.
    lra. }
  assert (Hsq : 1 * x <= (256 * hs) * (256 * hs))
    by (apply Rmult_le_compat; lra).
  set (D := hs * (hs + epsilon)).
  assert (HD : hs * hs <= D) by (unfold D; nra).
  assert (Hxe : x * epsilon * 1000000 <= x * 1)
    by (rewrite Rmult_assoc; apply Rmult_le_compat_l; lra).
  assert (HxD : x * epsilon < D) by nra.
  assert (HD0 : 0 < D) by nra.
  set (t := x * epsilon / D).
  assert (Ht : t * D = x * epsilon) by (unfold t; field; unfold D; nra).
  assert (Hdiff : x / (hs + epsilon) - x / hs = - t) by (unfold t, D; field; lra).
  rewrite Hdiff.
  assert (0 <= t).
  { unfold t, Rdiv. apply Rmult_le_pos; [nra | left; apply Rinv_0_lt_compat; lra]. }
  assert (t < 1).
  { destruct (Rlt_or_le t 1) as [|Hge]; [assumption|exfalso].
    assert (1 * D <= t * D) by (apply Rmult_le_compat_r; lra). lra. }
  apply Rabs_def1; lra.
Qed.

End RealBounds.

Section SampleSums.

Local Open Scope R_scope.

Variable d : list Z.
Hypothesis Hd : bytes_ok d = true.
Variable g : Z -> Z.

Lemma sample_eps_pos (i : Z) : 0 < sample d i + epsilon.
Proof. destruct (sample_bounds d i Hd). destruct epsilon_bounds. lra. Qed.

Lemma Rsum_pow1 (l : list Z) :
  Rsum (fun i => Rpower (sample d (g i) + epsilon) (0 + 1)) l =
  IZR (Zsum (fun i => at_ d (g i)) l) + IZR (Z.of_nat (length l)) * epsilon.
Proof.
  rewrite (Rsum_ext _ (fun i => IZR (at_ d (g i)) + epsilon)).
  - rewrite Rsum_plus, Rsum_IZR, Rsum_const. ring.
  - intros i. rewrite Rplus_0_l, Rpower_1 by apply sample_eps_pos. reflexivity.
Qed.

Lemma Rsum_pow0 (l : list Z) :
  Rsum (fun i => Rpower (sample d (g i) + epsilon) 0) l = IZR (Z.of_nat (length l)).
Proof.
  rewrite (Rsum_ext _ (fun _ => 1)).
  - rewrite Rsum_const. ring.
  - intros i. apply Rpower_O, sample_eps_pos.
Qed.

Lemma Rsum_powm1p1 (l : list Z) :
  Rsum (fun i => Rpower (sample d (g i) + epsilon) (-1 + 1)) l = IZR (Z.of_nat (length l)).
Proof.
  rewrite (Rsum_ext _ (fun _ => 1)).
  - rewrite Rsum_const. ring.
  - intros i. replace (-1 + 1) with 0 by ring. apply Rpower_O, sample_eps_pos.
Qed.

Lemma Rsum_powm1 (l : list Z) :
  Rsum (fun i => Rpower (sample d (g i) + epsilon) (-1)) l =
  Rsum (fun i => 1 / (sample d (g i) + epsilon)) l.
Proof.
  apply Rsum_ext. intros i. replace (-1) with (- (1)) by ring.
  rewrite Rpower_Ropp, Rpower_1 by apply sample_eps_pos.
  unfold Rdiv. ring.
Qed.

Lemma Rsum_inv_bounds (l : list Z) :
  / (255 + epsilon) * IZR (Z.of_nat (length l)) <=
  Rsum (fun i => 1 / (sample d (g i) + epsilon)) l <=
  / epsilon * IZR (Z.of_nat (length l)).
Proof.
  apply Rsum_bounds. intros i. destruct (sample_bounds d (g i) Hd). destruct epsilon_bounds.
  unfold Rdiv. rewrite Rmult_1_l.
  split; apply Rinv_le_contravar; lra.
Qed.

Lemma Rsum_ln_bounds (l : list Z) :
  ln epsilon * IZR (Z.of_nat (length l)) <=
  Rsum (fun i => ln (sample d (g i) + epsilon)) l <=
  ln (255 + epsilon) * IZR (Z.of_nat (length l)).
Proof.
  apply Rsum_bounds. intros i. destruct (sample_bounds d (g i) Hd). destruct epsilon_bounds.
  split; apply ln_le_mono; lra.
Qed.

End SampleSums.

Ltac new_ok H :=
  match type of H with context [if ?c then _ else _] => destruct c end;
  [discriminate H | injection H as <-].

(** C10: for samples in [0, 255] and an odd kernel size [k >= 1], every
    channel value of the ArithmeticMean, Min, Max, Midpoint, Median,
    GeometricMean and HarmonicMean aggregators is an integer of [0, 255],
    at every centre pixel. *)
Theorem aggregators_output_in_byte_range (k : Z) (d : list Z) (cx cy w h : Z) :
  1 <= k -> bytes_ok d = true ->
  (forall f, MeanFilter.new k = Ok f ->
     rgb_in_range (MeanFilter.calculateMeanValues f d cx cy w h)) /\
  (forall f, MinFilter.new k = Ok f ->
     rgb_in_range (MinFilter.calculateMinValues f d cx cy w h)) /\
  (forall f, MaxFilter.new k = Ok f ->
     rgb_in_range (MaxFilter.calculateMaxValues f d cx cy w h)) /\
  (forall f, MidpointFilter.new k = Ok f ->
     rgb_in_range (MidpointFilter.calculateMidpointValues f d cx cy w h)) /\
  (forall f, MedianFilter.new k = Ok f ->
     rgb_in_range (MedianFilter.calculateMedianValues f d cx cy w h)) /\
  (forall f, GeometricMeanFilter.new k = Ok f ->
     rgb_in_range (GeometricMeanFilter.calculateGeometricMean f d cx cy w h)) /\
  (forall f, HarmonicMeanFilter.new k = Ok f ->
     rgb_in_range (HarmonicMeanFilter.calculateHarmonicMean f d cx cy w h)).
Proof.
  intros Hk Hd.
  assert (Hl : (1 <= length (kernelIndices (k / 2) cx cy w h))%nat)
    by (apply length_kernelIndices_pos; apply Z.div_pos; lia).
  set (l := kernelIndices (k / 2) cx cy w h) in Hl.
  split; [|split; [|split; [|split; [|split; [|split]]]]].
  - intros f Hf. unfold MeanFilter.new in Hf. new_ok Hf.
    unfold MeanFilter.calculateMeanValues. cbn [MeanFilter.radius]. fold l.
    rewrite (fold_left_sum_Z4 _ (fun i => at_ d i) (fun i => at_ d (i + 1))
               (fun i => at_ d (i + 2))) by (intros; reflexivity).
    cbv beta iota. unfold rgb_in_range. cbn [r g b].
    pose proof (Zsum_bounds (fun i => at_ d i) l (fun i => at_bytes_ok d i Hd)).
    pose proof (Zsum_bounds (fun i => at_ d (i + 1)) l (fun i => at_bytes_ok d (i + 1) Hd)).
    pose proof (Zsum_bounds (fun i => at_ d (i + 2)) l (fun i => at_bytes_ok d (i + 2) Hd)).
    split; [|split]; apply mean_range; lia.
  - intros f Hf. unfold MinFilter.new in Hf. new_ok Hf.
    unfold MinFilter.calculateMinValues.
    match goal with |- context [fold_left ?F ?l0 ?a] =>
      pose proof (fold_left_inv F (fun p : Z * Z * Z => let '(m1, m2, m3) := p in
                     0 <= m1 <= 255 /\ 0 <= m2 <= 255 /\ 0 <= m3 <= 255) l0 a) as Hinv;
      revert Hinv; generalize (fold_left F l0 a)
    end.
    intros [[m1 m2] m3] Hinv. apply Hinv; [cbn; lia|].
    intros [[n1 n2] n3] i Hn. cbn in Hn |- *.
    pose proof (at_bytes_ok d i Hd). pose proof (at_bytes_ok d (i + 1) Hd).
    pose proof (at_bytes_ok d (i + 2) Hd). lia.
  - intros f Hf. unfold MaxFilter.new in Hf. new_ok Hf.
    unfold MaxFilter.calculateMaxValues.
    match goal with |- context [fold_left ?F ?l0 ?a] =>
      pose proof (fold_left_inv F (fun p : Z * Z * Z => let '(m1, m2, m3) := p in
                     0 <= m1 <= 255 /\ 0 <= m2 <= 255 /\ 0 <= m3 <= 255) l0 a) as Hinv;
      revert Hinv; generalize (fold_left F l0 a)
    end.
    intros [[m1 m2] m3] Hinv. apply Hinv; [cbn; lia|].
    intros [[n1 n2] n3] i Hn. cbn in Hn |- *.
    pose proof (at_bytes_ok d i Hd). pose proof (at_bytes_ok d (i + 1) Hd).
    pose proof (at_bytes_ok d (i + 2) Hd). lia.
  - intros f Hf. unfold MidpointFilter.new in Hf. new_ok Hf.
    unfold MidpointFilter.calculateMidpointValues.
    match goal with |- context [fold_left ?F ?l0 ?a] =>
      pose proof (fold_left_inv F
        (fun p : Z * Z * Z * Z * Z * Z => let '(n1, n2, n3, x1, x2, x3) := p in
           0 <= n1 <= 255 /\ 0 <= n2 <= 255 /\ 0 <= n3 <= 255 /\
           0 <= x1 <= 255 /\ 0 <= x2 <= 255 /\ 0 <= x3 <= 255) l0 a) as Hinv;
      revert Hinv; generalize (fold_left F l0 a)
    end.
    intros [[[[[n1 n2] n3] x1] x2] x3] Hinv.
    assert (Hr : 0 <= n1 <= 255 /\ 0 <= n2 <= 255 /\ 0 <= n3 <= 255 /\
                 0 <= x1 <= 255 /\ 0 <= x2 <= 255 /\ 0 <= x3 <= 255).
    { apply Hinv; [cbn; lia|].
      intros [[[[[a1 a2] a3] a4] a5] a6] i Ha. cbn in Ha |- *.
      pose proof (at_bytes_ok d i Hd). pose proof (at_bytes_ok d (i + 1) Hd).
      pose proof (at_bytes_ok d (i + 2) Hd). lia. }
    unfold rgb_in_range. cbn [r g b]. change 2%Q with (inject_Z 2).
    split; [|split]; apply mean_range; lia.
  - intros f Hf. unfold MedianFilter.new in Hf. new_ok Hf.
    unfold MedianFilter.calculateMedianValues.
    match goal with |- context [fold_left ?F ?l0 ?a] =>
      pose proof (fold_left_inv F (fun p : list Z * list Z * list Z => let '(h1, h2, h3) := p in
                     length h1 = 256%nat /\ length h2 = 256%nat /\ length h3 = 256%nat) l0 a)
        as Hinv;
      revert Hinv; generalize (fold_left F l0 a)
    end.
    intros [[h1 h2] h3] Hinv.
    assert (Hr : length h1 = 256%nat /\ length h2 = 256%nat /\ length h3 = 256%nat).
    { apply Hinv; [split; [|split]; reflexivity|].
      intros [[a1 a2] a3] i Ha. cbn in Ha |- *. rewrite !length_incr. exact Ha. }
    destruct Hr as (E1 & E2 & E3).
    unfold rgb_in_range, MedianFilter.findMedian. cbn [r g b].
    split; [|split]; apply findMedian_from_range; lia.
  - intros f Hf. unfold GeometricMeanFilter.new in Hf. new_ok Hf.
    unfold GeometricMeanFilter.calculateGeometricMean. cbn [GeometricMeanFilter.radius]. fold l.
    rewrite (fold_left_sum_R3Z _ (fun i => ln (sample d i  + epsilon)%R)
               (fun i => ln (sample d (i + 1) + epsilon)%R)
               (fun i => ln (sample d (i + 2) + epsilon)%R)) by (intros; reflexivity).
    cbv beta iota. unfold rgb_in_range. cbn [r g b].
    split; [|split]; apply geometric_range; try lia;
      rewrite Z.add_0_l, Rplus_0_l;
      [exact (Rsum_ln_bounds d Hd (fun i => i) l)
      | exact (Rsum_ln_bounds d Hd (fun i => i + 1) l)
      | exact (Rsum_ln_bounds d Hd (fun i => i + 2) l)].
  - intros f Hf. unfold HarmonicMeanFilter.new in Hf. new_ok Hf.
    unfold HarmonicMeanFilter.calculateHarmonicMean. cbn [HarmonicMeanFilter.radius]. fold l.
    rewrite (fold_left_sum_R3Z _ (fun i => (1 / (sample d i + epsilon))%R)
               (fun i => (1 / (sample d (i + 1) + epsilon))%R)
               (fun i => (1 / (sample d (i + 2) + epsilon))%R)) by (intros; reflexivity).
    cbv beta iota. unfold rgb_in_range. cbn [r g b].
    split; [|split]; apply harmonic_range; try lia;
      rewrite Z.add_0_l, Rplus_0_l;
      [exact (Rsum_inv_bounds d Hd (fun i => i) l)
      | exact (Rsum_inv_bounds d Hd (fun i => i + 1) l)
      | exact (Rsum_inv_bounds d Hd (fun i => i + 2) l)].
Qed.

Lemma aggregators_output_in_byte_range_witness :
  rgb_in_range (HarmonicMeanFilter.calculateHarmonicMean (HarmonicMeanFilter.mk 3 1)
                  [0; 255; 7; 255] 0 0 1 1).
Proof.
  destruct (aggregators_output_in_byte_range 3 [0; 255; 7; 255] 0 0 1 1
              ltac:(lia) ltac:(vm_compute; reflexivity)) as (_ & _ & _ & _ & _ & _ & H).
  exact (H _ eq_refl).
Defined.

(** C7: on the same neighbourhood, ContraharmonicMean with [Q = 0] is
    within 1 of ArithmeticMean and ContraharmonicMean with [Q = -1] is
    within 1 of HarmonicMean, channel by channel, for samples in
    [0, 255] and an odd kernel size [k >= 1]. *)
Theorem contraharmonic_degenerate_cases (k : Z) (d : list Z) (cx cy w h : Z) :
  1 <= k -> bytes_ok d = true ->
  (forall fa fc, MeanFilter.new k = Ok fa -> ContraharmonicMeanFilter.new k 0%R = Ok fc ->
     rgb_within_one (ContraharmonicMeanFilter.calculateContraharmonicMean fc d cx cy w h)
                    (MeanFilter.calculateMeanValues fa d cx cy w h)) /\
  (forall fh fc, HarmonicMeanFilter.new k = Ok fh ->
     ContraharmonicMeanFilter.new k (-1)%R = Ok fc ->
     rgb_within_one (ContraharmonicMeanFilter.calculateContraharmonicMean fc d cx cy w h)
                    (HarmonicMeanFilter.calculateHarmonicMean fh d cx cy w h)).
Proof.
  intros Hk Hd.
  assert (Hl : (1 <= length (kernelIndices (k / 2) cx cy w h))%nat)
    by (apply length_kernelIndices_pos; apply Z.div_pos; lia).
  set (l := kernelIndices (k / 2) cx cy w h) in Hl.
  split.
  - intros fa fc Ha Hc. unfold MeanFilter.new in Ha. new_ok Ha.
    unfold ContraharmonicMeanFilter.new in Hc. new_ok Hc.
    unfold MeanFilter.calculateMeanValues, ContraharmonicMeanFilter.calculateContraharmonicMean.
    cbn [MeanFilter.radius ContraharmonicMeanFilter.radius ContraharmonicMeanFilter.Q]. fold l.
    rewrite (fold_left_sum_Z4 _ (fun i => at_ d i) (fun i => at_ d (i + 1))
               (fun i => at_ d (i + 2))) by (intros; reflexivity).
    rewrite (fold_left_sum_R6 _
               (fun i => Rpower (sample d i + epsilon) (0 + 1))%R
               (fun i => Rpower (sample d (i + 1) + epsilon) (0 + 1))%R
               (fun i => Rpower (sample d (i + 2) + epsilon) (0 + 1))%R
               (fun i => Rpower (sample d i + epsilon) 0)%R
               (fun i => Rpower (sample d (i + 1) + epsilon) 0)%R
               (fun i => Rpower (sample d (i + 2) + epsilon) 0)%R) by (intros; reflexivity).
    cbv beta iota. unfold rgb_within_one. cbn [r g b].
    pose proof (Zsum_bounds (fun i => at_ d i) l (fun i => at_bytes_ok d i Hd)).
    pose proof (Zsum_bounds (fun i => at_ d (i + 1)) l (fun i => at_bytes_ok d (i + 1) Hd)).
    pose proof (Zsum_bounds (fun i => at_ d (i + 2)) l (fun i => at_bytes_ok d (i + 2) Hd)).
    split; [|split]; apply contraharmonic_Q0_close; try lia;
      rewrite ?Z.add_0_l;
      first [ apply (f_equal (Rplus 0)) | etransitivity; [apply Rplus_0_l|]
            | rewrite Rplus_0_l | idtac ];
      first [ exact (Rsum_pow1 d Hd (fun i => i) l)
            | exact (Rsum_pow1 d Hd (fun i => i + 1) l)
            | exact (Rsum_pow1 d Hd (fun i => i + 2) l)
            | exact (Rsum_pow0 d Hd (fun i => i) l)
            | exact (Rsum_pow0 d Hd (fun i => i + 1) l)
            | exact (Rsum_pow0 d Hd (fun i => i + 2) l) ].
  - intros fh fc Hh Hc. unfold HarmonicMeanFilter.new in Hh. new_ok Hh.
    unfold ContraharmonicMeanFilter.new in Hc. new_ok Hc.
    unfold HarmonicMeanFilter.calculateHarmonicMean,
      ContraharmonicMeanFilter.calculateContraharmonicMean.
    cbn [HarmonicMeanFilter.radius ContraharmonicMeanFilter.radius ContraharmonicMeanFilter.Q].
    fold l.
    rewrite (fold_left_sum_R3Z _ (fun i => (1 / (sample d i + epsilon))%R)
               (fun i => (1 / (sample d (i + 1) + epsilon))%R)
               (fun i => (1 / (sample d (i + 2) + epsilon))%R)) by (intros; reflexivity).
    rewrite (fold_left_sum_R6 _
               (fun i => Rpower (sample d i + epsilon) (-1 + 1))%R
               (fun i => Rpower (sample d (i + 1) + epsilon) (-1 + 1))%R
               (fun i => Rpower (sample d (i + 2) + epsilon) (-1 + 1))%R
               (fun i => Rpower (sample d i + epsilon) (-1))%R
               (fun i => Rpower (sample d (i + 1) + epsilon) (-1))%R
               (fun i => Rpower (sample d (i + 2) + epsilon) (-1))%R) by (intros; reflexivity).
    cbv beta iota. unfold rgb_within_one. cbn [r g b].
    split; [|split]; apply contraharmonic_Qm1_close; try lia;
      rewrite ?Z.add_0_l;
      first [ apply (f_equal (Rplus 0)) | etransitivity; [apply Rplus_0_l|]
            | rewrite Rplus_0_l | idtac ];
      first [ exact (Rsum_inv_bounds d Hd (fun i => i) l)
            | exact (Rsum_inv_bounds d Hd (fun i => i + 1) l)
            | exact (Rsum_inv_bounds d Hd (fun i => i + 2) l)
            | exact (Rsum_powm1p1 d Hd (fun i => i) l)
            | exact (Rsum_powm1p1 d Hd (fun i => i + 1) l)
            | exact (Rsum_powm1p1 d Hd (fun i => i + 2) l)
            | exact (Rsum_powm1 d Hd (fun i => i) l)
            | exact (Rsum_powm1 d Hd (fun i => i + 1) l)
            | exact (Rsum_powm1 d Hd (fun i => i + 2) l) ].
Qed.

Lemma contraharmonic_degenerate_cases_witness :
  rgb_within_one
    (ContraharmonicMeanFilter.calculateContraharmonicMean (ContraharmonicMeanFilter.mk 3 1 0%R)
       [10; 20; 30; 255] 0 0 1 1)
    (MeanFilter.calculateMeanValues (MeanFilter.mk 3 1) [10; 20; 30; 255] 0 0 1 1).
Proof.
  destruct (contraharmonic_degenerate_cases 3 [10; 20; 30; 255] 0 0 1 1
              ltac:(lia) ltac:(vm_compute; reflexivity)) as [H _].
  exact (H _ _ eq_refl eq_refl).
Defined.

(** ** Further properties of the filter engine *)

Lemma reflectCoord_bounds (c n : Z) : 1 <= n -> 0 <= reflectCoord c n <= n - 1.
Proof. intros Hn. unfold reflectCoord. lia. Qed.

Lemma In_loop_incl (a b v : Z) : In v (loop_incl a b) <-> a <= v <= b.
Proof. unfold loop_incl. rewrite In_zrange. lia. Qed.


Lemma In_kernelIndices (rad cx cy w h i : Z) :
  In i (kernelIndices rad cx cy w h) ->
  exists dx dy, -rad <= dx <= rad /\ -rad <= dy <= rad /\
    i = pixelIndex w (reflectCoord (cx + dx) w) (reflectCoord (cy + dy) h).
Proof.
  unfold kernelIndices. rewrite in_flat_map. intros (dy & Hdy & Hi).
  apply in_map_iff in Hi as (dx & <- & Hdx).
  apply In_loop_incl in Hdy, Hdx. exists dx, dy. repeat split; lia.
Qed.

(** Every offset a kernel reads is the first cell of a pixel of the raster. *)
Lemma kernelIndices_pixel (rad cx cy w h i : Z) :
  1 <= w -> 1 <= h -> In i (kernelIndices rad cx cy w h) ->
  exists x y, 0 <= x < w /\ 0 <= y < h /\ i = pixelIndex w x y.
Proof.
  intros Hw Hh Hi. apply In_kernelIndices in Hi as (dx & dy & _ & _ & ->).
  exists (reflectCoord (cx + dx) w), (reflectCoord (cy + dy) h).
  pose proof (reflectCoord_bounds (cx + dx) w Hw).
  pose proof (reflectCoord_bounds (cy + dy) h Hh). repeat split; lia.
Qed.

Lemma kernelIndices_bounds (rad cx cy w h i : Z) :
  1 <= w -> 1 <= h -> In i (kernelIndices rad cx cy w h) ->
  0 <= i /\ i + 3 < w * h * 4 /\ i mod 4 = 0.
Proof.
  intros Hw Hh Hi. destruct (kernelIndices_pixel rad cx cy w h i Hw Hh Hi) as (x & y & Hx & Hy & ->).
  unfold pixelIndex. split; [nia|split; [nia|]]. apply Z.mod_mul. lia.
Qed.

(** X1: with the reflection and the final clamp, no kernel of any radius,
    at any centre, reads outside the pixel buffer of a non-empty raster. *)
Theorem kernel_reads_stay_in_buffer (img : ImageData) (rad cx cy i : Z) :
  wf_imageb img = true -> 1 <= width img -> 1 <= height img ->
  In i (kernelIndices rad cx cy (width img) (height img)) ->
  0 <= i /\ i + 3 < Z.of_nat (length (data img)) /\ i mod 4 = 0.
Proof.
  intros Hwf Hw Hh Hi. destruct (wf_imageb_spec img Hwf) as (_ & _ & Hlen & _).
  rewrite Hlen. exact (kernelIndices_bounds rad cx cy _ _ i Hw Hh Hi).
Qed.

Lemma kernel_reads_stay_in_buffer_witness :
  let img := mkImageData 2 1 [1; 2; 3; 255; 4; 5; 6; 255] in
  0 <= 4 /\ 4 + 3 < Z.of_nat (length (data img)) /\ 4 mod 4 = 0.
Proof.
  intros img.
  exact (kernel_reads_stay_in_buffer img 1 0 0 4 ltac:(vm_compute; reflexivity)
           ltac:(cbn; lia) ltac:(cbn; lia) ltac:(vm_compute; auto)).
Defined.

Lemma fold_left_split3 {A : Type} (F : A * A * A -> Z -> A * A * A) (f1 f2 f3 : A -> Z -> A) :
  (forall a1 a2 a3 i, F (a1, a2, a3) i = (f1 a1 i, f2 a2 i, f3 a3 i)) ->
  forall l a1 a2 a3, fold_left F l (a1, a2, a3) =
    (fold_left f1 l a1, fold_left f2 l a2, fold_left f3 l a3).
Proof.
  intros HF l. induction l as [|i l IH]; intros a1 a2 a3; simpl; [reflexivity|].
  rewrite HF. apply IH.
Qed.

Lemma fold_left_split6 {A : Type} (F : A * A * A * A * A * A -> Z -> A * A * A * A * A * A)
    (f1 f2 f3 f4 f5 f6 : A -> Z -> A) :
  (forall a1 a2 a3 a4 a5 a6 i, F (a1, a2, a3, a4, a5, a6) i =
     (f1 a1 i, f2 a2 i, f3 a3 i, f4 a4 i, f5 a5 i, f6 a6 i)) ->
  forall l a1 a2 a3 a4 a5 a6, fold_left F l (a1, a2, a3, a4, a5, a6) =
    (fold_left f1 l a1, fold_left f2 l a2, fold_left f3 l a3,
     fold_left f4 l a4, fold_left f5 l a5, fold_left f6 l a6).
Proof.
  intros HF l. induction l as [|i l IH]; intros a1 a2 a3 a4 a5 a6; simpl; [reflexivity|].
  rewrite HF. apply IH.
Qed.

Lemma fold_min_le (s : Z -> Z) (l : list Z) (a : Z) :
  fold_left (fun m i => Z.min m (s i)) l a <= a /\
  forall i, In i l -> fold_left (fun m i => Z.min m (s i)) l a <= s i.
Proof.
  revert a; induction l as [|j l IH]; intros a; simpl; [split; [lia | tauto]|].
  destruct (IH (Z.min a (s j))) as [H1 H2]. split; [lia|].
  intros i [<-|Hi]; [lia | auto].
Qed.

Lemma fold_max_ge (s : Z -> Z) (l : list Z) (a : Z) :
  a <= fold_left (fun m i => Z.max m (s i)) l a /\
  forall i, In i l -> s i <= fold_left (fun m i => Z.max m (s i)) l a.
Proof.
  revert a; induction l as [|j l IH]; intros a; simpl; [split; [lia | tauto]|].
  destruct (IH (Z.max a (s j))) as [H1 H2]. split; [lia|].
  intros i [<-|Hi]; [lia | auto].
Qed.

Lemma fold_min_lower (s : Z -> Z) (l : list Z) (a lo : Z) :
  lo <= a -> (forall i, In i l -> lo <= s i) -> lo <= fold_left (fun m i => Z.min m (s i)) l a.
Proof.
  revert a; induction l as [|j l IH]; intros a Ha Hs; simpl; [lia|].
  apply IH; [specialize (Hs j (or_introl eq_refl)); lia | intros; apply Hs; now right].
Qed.

Lemma fold_max_upper (s : Z -> Z) (l : list Z) (a hi : Z) :
  a <= hi -> (forall i, In i l -> s i <= hi) -> fold_left (fun m i => Z.max m (s i)) l a <= hi.
Proof.
  revert a; induction l as [|j l IH]; intros a Ha Hs; simpl; [lia|].
  apply IH; [specialize (Hs j (or_introl eq_refl)); lia | intros; apply Hs; now right].
Qed.

Lemma Zsum_bounds_in (f : Z -> Z) (l : list Z) (lo hi : Z) :
  (forall i, In i l -> lo <= f i <= hi) ->
  lo * Z.of_nat (length l) <= Zsum f l <= hi * Z.of_nat (length l).
Proof.
  intros Hf. induction l as [|i l IH]; simpl; [lia|].
  assert (H := Hf i (or_introl eq_refl)).
  assert (IH' := IH (fun j Hj => Hf j (or_intror Hj))). lia.
Qed.

Section Between.

Local Open Scope R_scope.

Lemma Rsum_bounds_in (f : Z -> R) (l : list Z) (lo hi : R) :
  (forall i, In i l -> lo <= f i <= hi) ->
  lo * IZR (Z.of_nat (length l)) <= Rsum f l <= hi * IZR (Z.of_nat (length l)).
Proof.
  intros Hf. induction l as [|i l IH]; [simpl; lra|]. cbn [Rsum length].
  rewrite Nat2Z.inj_succ, succ_IZR.
  assert (H := Hf i (or_introl eq_refl)).
  assert (IH' := IH (fun j Hj => Hf j (or_intror Hj))). lra.
Qed.

Lemma Math_round_R_between (x : R) (lo hi : Z) :
  IZR lo - / 2 <= x < IZR hi + / 2 -> (lo <= Math_round_R x <= hi)%Z.
Proof.
  intros [H1 H2]. destruct (Math_round_R_spec x) as [A B].
  assert (C1 : IZR (lo - 1) < IZR (Math_round_R x)) by (rewrite minus_IZR; lra).
  assert (C2 : IZR (Math_round_R x) < IZR (hi + 1)) by (rewrite plus_IZR; lra).
  apply lt_IZR in C1, C2. lia.
Qed.

(** The rounded mean of integer samples between [lo] and [hi]. *)
Lemma mean_between (s n lo hi : Z) :
  (0 < n)%Z -> (lo * n <= s <= hi * n)%Z ->
  (lo <= Math_round (inject_Z s / inject_Z n) <= hi)%Z.
Proof.
  intros Hn Hs. rewrite Math_round_div by exact Hn.
  assert (Hn' : 0 < IZR n) by (apply (IZR_lt 0); lia).
  assert (Hs' : IZR lo * IZR n <= IZR s <= IZR hi * IZR n).
  { rewrite <- !mult_IZR. split; apply IZR_le; lia. }
  destruct (div_bounds _ _ _ _ Hn' Hs'). apply Math_round_R_between. lra.
Qed.

Lemma geometric_between (s : Z -> Z) (l : list Z) (lo hi : Z) :
  (1 <= length l)%nat -> (0 <= lo)%Z -> (forall i, In i l -> (lo <= s i <= hi)%Z) ->
  (lo <= Math_round_R (exp (Rsum (fun i => ln (IZR (s i) + epsilon)%R) l
                            / IZR (Z.of_nat (length l)))) <= hi)%Z.
Proof.
  intros Hl Hlo Hs. destruct epsilon_bounds as [He1 He2].
  assert (Hlo' : 0 <= IZR lo) by (apply (IZR_le 0); lia).
  assert (Hn : 0 < IZR (Z.of_nat (length l))) by (apply (IZR_lt 0); lia).
  assert (Hb : ln (IZR lo + epsilon) * IZR (Z.of_nat (length l))
               <= Rsum (fun i => ln (IZR (s i) + epsilon)) l
               <= ln (IZR hi + epsilon) * IZR (Z.of_nat (length l))).
  { apply Rsum_bounds_in. intros i Hi. destruct (Hs i Hi) as [A B].
    apply IZR_le in A, B. split; apply ln_le_mono; lra. }
  destruct (div_bounds _ _ _ _ Hn Hb) as [A B].
  apply exp_le_mono in A, B.
  assert (Hhi : IZR lo <= IZR hi).
  { destruct l as [|i l]; [simpl in Hl; lia|]. destruct (Hs i (or_introl eq_refl)).
    apply IZR_le. lia. }
  rewrite exp_ln in A, B by lra.
  apply Math_round_R_between. lra.
Qed.

Lemma harmonic_between (s : Z -> Z) (l : list Z) (lo hi : Z) :
  (1 <= length l)%nat -> (0 <= lo)%Z -> (forall i, In i l -> (lo <= s i <= hi)%Z) ->
  (lo <= Math_round_R (IZR (Z.of_nat (length l))
                       / Rsum (fun i => 1 / (IZR (s i) + epsilon))%R l) <= hi)%Z.
Proof.
  intros Hl Hlo Hs. destruct epsilon_bounds as [He1 He2].
  set (n := IZR (Z.of_nat (length l))).
  set (A := Rsum (fun i => 1 / (IZR (s i) + epsilon)) l).
  assert (Hlo' : 0 <= IZR lo) by (apply (IZR_le 0); lia).
  assert (Hn : 0 < n) by (apply (IZR_lt 0); lia).
  assert (Hhi : IZR lo <= IZR hi).
  { destruct l as [|i l]; [simpl in Hl; lia|]. destruct (Hs i (or_introl eq_refl)).
    apply IZR_le. lia. }
  set (x := IZR lo + epsilon) in *. set (y := IZR hi + epsilon) in *.
  assert (Hx : 0 < x) by (unfold x; lra). assert (Hy : 0 < y) by (unfold y; lra).
  assert (Hb : 1 / y * n <= A <= 1 / x * n).
  { apply Rsum_bounds_in. intros i Hi. destruct (Hs i Hi) as [C D].
    apply IZR_le in C, D. unfold Rdiv. rewrite !Rmult_1_l.
    split; apply Rinv_le_contravar; unfold x, y in *; lra. }
  assert (HA : 0 < A).
  { apply Rlt_le_trans with (1 / y * n); [|lra].
    apply Rmult_lt_0_compat; [unfold Rdiv; rewrite Rmult_1_l; apply Rinv_0_lt_compat|]; lra. }
  assert (Hq : x <= n / A <= y).
  { apply div_bounds; [exact HA|]. destruct Hb as [B1 B2]. split.
    - apply Rmult_le_compat_l with (r := x) in B2; [|lra].
      replace (x * (1 / x * n)) with n in B2 by (field; lra). exact B2.
    - apply Rmult_le_compat_l with (r := y) in B1; [|lra].
      replace (y * (1 / y * n)) with n in B1 by (field; lra). exact B1. }
  apply Math_round_R_between. unfold x, y in Hq. lra.
Qed.

End Between.

Lemma MinFilter_calc_eq (f : MinFilter.t) (d : list Z) (cx cy w h : Z) :
  MinFilter.calculateMinValues f d cx cy w h =
  let l := kernelIndices (MinFilter.radius f) cx cy w h in
  mkRGB (fold_left (fun m i => Z.min m (at_ d i)) l 255)
        (fold_left (fun m i => Z.min m (at_ d (i + 1))) l 255)
        (fold_left (fun m i => Z.min m (at_ d (i + 2))) l 255).
Proof.
  unfold MinFilter.calculateMinValues.
  rewrite (fold_left_split3 _ (fun m i => Z.min m (at_ d i)) (fun m i => Z.min m (at_ d (i + 1)))
             (fun m i => Z.min m (at_ d (i + 2)))) by (intros; reflexivity).
  reflexivity.
Qed.

Lemma MaxFilter_calc_eq (f : MaxFilter.t) (d : list Z) (cx cy w h : Z) :
  MaxFilter.calculateMaxValues f d cx cy w h =
  let l := kernelIndices (MaxFilter.radius f) cx cy w h in
  mkRGB (fold_left (fun m i => Z.max m (at_ d i)) l 0)
        (fold_left (fun m i => Z.max m (at_ d (i + 1))) l 0)
        (fold_left (fun m i => Z.max m (at_ d (i + 2))) l 0).
Proof.
  unfold MaxFilter.calculateMaxValues.
  rewrite (fold_left_split3 _ (fun m i => Z.max m (at_ d i)) (fun m i => Z.max m (at_ d (i + 1)))
             (fun m i => Z.max m (at_ d (i + 2)))) by (intros; reflexivity).
  reflexivity.
Qed.

Lemma MidpointFilter_calc_eq (f : MidpointFilter.t) (d : list Z) (cx cy w h : Z) :
  MidpointFilter.calculateMidpointValues f d cx cy w h =
  let l := kernelIndices (MidpointFilter.radius f) cx cy w h in
  let mn s := fold_left (fun m i => Z.min m (s i)) l 255 in
  let mx s := fold_left (fun m i => Z.max m (s i)) l 0 in
  mkRGB (Math_round (inject_Z (mn (fun i => at_ d i) + mx (fun i => at_ d i)) / 2))
        (Math_round (inject_Z (mn (fun i => at_ d (i + 1)) + mx (fun i => at_ d (i + 1))) / 2))
        (Math_round (inject_Z (mn (fun i => at_ d (i + 2)) + mx (fun i => at_ d (i + 2))) / 2)).
Proof.
  unfold MidpointFilter.calculateMidpointValues.
  rewrite (fold_left_split6 _ (fun m i => Z.min m (at_ d i)) (fun m i => Z.min m (at_ d (i + 1)))
             (fun m i => Z.min m (at_ d (i + 2))) (fun m i => Z.max m (at_ d i))
             (fun m i => Z.max m (at_ d (i + 1))) (fun m i => Z.max m (at_ d (i + 2))))
    by (intros; reflexivity).
  reflexivity.
Qed.

(** The channel-level facts behind the comparisons with Min and Max. *)
Lemma channel_between (s : Z -> Z) (l : list Z) :
  (1 <= length l)%nat -> (forall i, 0 <= s i <= 255) ->
  let mn := fold_left (fun m i => Z.min m (s i)) l 255 in
  let mx := fold_left (fun m i => Z.max m (s i)) l 0 in
  mn <= mx /\
  (mn <= Math_round (inject_Z (Zsum s l) / inject_Z (Z.of_nat (length l))) <= mx) /\
  (mn <= Math_round (inject_Z (mn + mx) / 2) <= mx) /\
  (mn <= Math_round_R (exp (Rsum (fun i => ln (IZR (s i) + epsilon)%R) l
                           / IZR (Z.of_nat (length l)))) <= mx) /\
  (mn <= Math_round_R (IZR (Z.of_nat (length l))
                       / Rsum (fun i => 1 / (IZR (s i) + epsilon))%R l) <= mx).
Proof.
  intros Hl Hs mn mx.
  destruct (fold_min_le s l 255) as [_ Hmn]. destruct (fold_max_ge s l 0) as [_ Hmx].
  fold mn in Hmn. fold mx in Hmx.
  assert (Hin : forall i, In i l -> mn <= s i <= mx) by (intros i Hi; split; auto).
  assert (H0 : 0 <= mn) by (apply fold_min_lower; [lia | intros i _; apply Hs]).
  assert (Hle : mn <= mx).
  { destruct l as [|i l]; [simpl in Hl; lia|]. destruct (Hin i (or_introl eq_refl)). lia. }
  split; [exact Hle|]. split; [|split; [|split]].
  - apply mean_between; [lia|]. apply Zsum_bounds_in. exact Hin.
  - change 2%Q with (inject_Z 2). apply mean_between; lia.
  - apply geometric_between; auto.
  - apply harmonic_between; auto.
Qed.

Lemma kernelIndices_nonempty (k cx cy w h : Z) :
  1 <= k -> (1 <= length (kernelIndices (k / 2) cx cy w h))%nat.
Proof. intros Hk. apply length_kernelIndices_pos. apply Z.div_pos; lia. Qed.

Lemma means_between_min_and_max_core (k : Z) (d : list Z) (cx cy w h : Z)
    (fmin : MinFilter.t) (fmax : MaxFilter.t) :
  1 <= k -> bytes_ok d = true -> MinFilter.new k = Ok fmin -> MaxFilter.new k = Ok fmax ->
  let lo := MinFilter.calculateMinValues fmin d cx cy w h in
  let hi := MaxFilter.calculateMaxValues fmax d cx cy w h in
  rgb_le lo hi /\
  (forall f, MeanFilter.new k = Ok f ->
     let c := MeanFilter.calculateMeanValues f d cx cy w h in rgb_le lo c /\ rgb_le c hi) /\
  (forall f, MidpointFilter.new k = Ok f ->
     let c := MidpointFilter.calculateMidpointValues f d cx cy w h in rgb_le lo c /\ rgb_le c hi) /\
  (forall f, GeometricMeanFilter.new k = Ok f ->
     let c := GeometricMeanFilter.calculateGeometricMean f d cx cy w h in
     rgb_le lo c /\ rgb_le c hi) /\
  (forall f, HarmonicMeanFilter.new k = Ok f ->
     let c := HarmonicMeanFilter.calculateHarmonicMean f d cx cy w h in
     rgb_le lo c /\ rgb_le c hi).
Proof.
  intros Hk Hd Hmin Hmax lo hi.
  unfold MinFilter.new in Hmin. new_ok Hmin. unfold MaxFilter.new in Hmax. new_ok Hmax.
  unfold lo, hi. rewrite MinFilter_calc_eq, MaxFilter_calc_eq. cbn [MinFilter.radius MaxFilter.radius].
  assert (Hl := kernelIndices_nonempty k cx cy w h Hk).
  set (l := kernelIndices (k / 2) cx cy w h) in *. cbv zeta.
  destruct (channel_between (fun i => at_ d i) l Hl (fun i => at_bytes_ok d i Hd))
    as (R1 & R2 & R3 & R4 & R5).
  destruct (channel_between (fun i => at_ d (i + 1)) l Hl (fun i => at_bytes_ok d (i + 1) Hd))
    as (G1 & G2 & G3 & G4 & G5).
  destruct (channel_between (fun i => at_ d (i + 2)) l Hl (fun i => at_bytes_ok d (i + 2) Hd))
    as (B1 & B2 & B3 & B4 & B5).
  cbv zeta in *. unfold rgb_le. cbn [r g b].
  split; [tauto|]. split; [|split; [|split]].
  - intros f Hf. unfold MeanFilter.new in Hf. new_ok Hf.
    unfold MeanFilter.calculateMeanValues. cbn [MeanFilter.radius]. fold l.
    rewrite (fold_left_sum_Z4 _ (fun i => at_ d i) (fun i => at_ d (i + 1))
               (fun i => at_ d (i + 2))) by (intros; reflexivity).
    cbv beta iota zeta. cbn [r g b]. rewrite !Z.add_0_l. lia.
  - intros f Hf. unfold MidpointFilter.new in Hf. new_ok Hf.
    rewrite MidpointFilter_calc_eq. cbn [MidpointFilter.radius]. fold l. cbv zeta. cbn [r g b]. lia.
  - intros f Hf. unfold GeometricMeanFilter.new in Hf. new_ok Hf.
    unfold GeometricMeanFilter.calculateGeometricMean. cbn [GeometricMeanFilter.radius]. fold l.
    rewrite (fold_left_sum_R3Z _ (fun i => ln (sample d i  + epsilon)%R)
               (fun i => ln (sample d (i + 1) + epsilon)%R)
               (fun i => ln (sample d (i + 2) + epsilon)%R)) by (intros; reflexivity).
    cbv beta iota zeta. cbn [r g b]. rewrite !Z.add_0_l, !Rplus_0_l. unfold sample. lia.
  - intros f Hf. unfold HarmonicMeanFilter.new in Hf. new_ok Hf.
    unfold HarmonicMeanFilter.calculateHarmonicMean. cbn [HarmonicMeanFilter.radius]. fold l.
    rewrite (fold_left_sum_R3Z _ (fun i => (1 / (sample d i + epsilon))%R)
               (fun i => (1 / (sample d (i + 1) + epsilon))%R)
               (fun i => (1 / (sample d (i + 2) + epsilon))%R)) by (intros; reflexivity).
    cbv beta iota zeta. cbn [r g b]. rewrite !Z.add_0_l, !Rplus_0_l. unfold sample. lia.
Qed.

(** X2: on the same neighbourhood of samples in [0, 255], the Min filter's
    value never exceeds the Max filter's, and the ArithmeticMean, Midpoint,
    GeometricMean and HarmonicMean values lie between the two, channel by
    channel, for an odd kernel size [k >= 1]. *)
Theorem means_between_min_and_max (k : Z) (d : list Z) (cx cy w h : Z)
    (fmin : MinFilter.t) (fmax : MaxFilter.t) :
  1 <= k -> bytes_ok d = true -> MinFilter.new k = Ok fmin -> MaxFilter.new k = Ok fmax ->
  let lo := MinFilter.calculateMinValues fmin d cx cy w h in
  let hi := MaxFilter.calculateMaxValues fmax d cx cy w h in
  rgb_le lo hi /\
  (forall f, MeanFilter.new k = Ok f ->
     let c := MeanFilter.calculateMeanValues f d cx cy w h in rgb_le lo c /\ rgb_le c hi) /\
  (forall f, MidpointFilter.new k = Ok f ->
     let c := MidpointFilter.calculateMidpointValues f d cx cy w h in rgb_le lo c /\ rgb_le c hi) /\
  (forall f, GeometricMeanFilter.new k = Ok f ->
     let c := GeometricMeanFilter.calculateGeometricMean f d cx cy w h in
     rgb_le lo c /\ rgb_le c hi) /\
  (forall f, HarmonicMeanFilter.new k = Ok f ->
     let c := HarmonicMeanFilter.calculateHarmonicMean f d cx cy w h in
     rgb_le lo c /\ rgb_le c hi).
Proof. exact (means_between_min_and_max_core k d cx cy w h fmin fmax). Qed.

Lemma means_between_min_and_max_witness :
  rgb_le (MinFilter.calculateMinValues (MinFilter.mk 3 1) [10; 200; 30; 255; 90; 0; 60; 255] 0 0 2 1)
         (GeometricMeanFilter.calculateGeometricMean (GeometricMeanFilter.mk 3 1)
            [10; 200; 30; 255; 90; 0; 60; 255] 0 0 2 1).
Proof.
  destruct (means_between_min_and_max 3 [10; 200; 30; 255; 90; 0; 60; 255] 0 0 2 1
              (MinFilter.mk 3 1) (MaxFilter.mk 3 1)
              ltac:(lia) ltac:(vm_compute; reflexivity) eq_refl eq_refl)
    as (_ & _ & _ & H & _).
  exact (proj1 (H _ eq_refl)).
Defined.

Section ContraharmonicBounds.

Local Open Scope R_scope.



Lemma Rsum_pos (f : Z -> R) (l : list Z) : (forall i, 0 < f i) -> 0 <= Rsum f l.
Proof.
  intros Hf. induction l as [|i l IH]; simpl; [lra|]. specialize (Hf i). lra.
Qed.

Lemma Rsum_le (f g : Z -> R) (l : list Z) :
  (forall i, In i l -> f i <= g i) -> Rsum f l <= Rsum g l.
Proof.
  intros H. induction l as [|i l IH]; simpl; [lra|].
  assert (H1 := H i (or_introl eq_refl)). assert (H2 := IH (fun j Hj => H j (or_intror Hj))). lra.
Qed.



End ContraharmonicBounds.




(** ** The Median filter's histograms *)

Lemma findMedian_from_ge (m : Z) (hist : list Z) (i s : Z) :
  i <= MedianFilter.findMedian_from m hist i s \/ MedianFilter.findMedian_from m hist i s = 255.
Proof.
  revert i s; induction hist as [|x hist IH]; intros i s; simpl; [now right|].
  destruct (_ >=? _); [left; lia|]. destruct (IH (i + 1) (s + x)); [left; lia | now right].
Qed.

Lemma findMedian_from_lower (m : Z) (hist : list Z) (i s lo : Z) :
  s < m -> lo <= 255 -> (forall j, (j < Z.to_nat (lo - i))%nat -> nth j hist 0 = 0) ->
  lo <= MedianFilter.findMedian_from m hist i s.
Proof.
  revert i s; induction hist as [|x hist IH]; intros i s Hs Hlo H0; simpl; [lia|].
  destruct (Z_lt_le_dec i lo) as [Hi|Hi].
  - assert (Hx : x = 0) by (apply (H0 0%nat); lia). subst x.
    replace (s + 0 >=? m) with false by (symmetry; rewrite Z.geb_leb; apply Z.leb_gt; lia).
    apply IH; [lia | lia |]. intros j Hj. apply (H0 (S j)). lia.
  - destruct (findMedian_from_ge m (x :: hist) i s) as [E|E]; simpl in E; lia.
Qed.

Lemma findMedian_from_upper (m : Z) (hist : list Z) (i s hi : Z) :
  s < m -> i <= hi -> m <= s + fold_right Z.add 0 (firstn (Z.to_nat (hi - i + 1)) hist) ->
  MedianFilter.findMedian_from m hist i s <= hi.
Proof.
  revert i s; induction hist as [|x hist IH]; intros i s Hs Hi Hm; simpl.
  - rewrite firstn_nil in Hm. simpl in Hm. lia.
  - replace (Z.to_nat (hi - i + 1)) with (S (Z.to_nat (hi - i))) in Hm by lia.
    cbn [firstn fold_right] in Hm.
    destruct (s + x >=? m) eqn:E; [lia|]. rewrite Z.geb_leb, Z.leb_gt in E.
    destruct (Z.eq_dec i hi) as [<-|Hne].
    + rewrite Z.sub_diag in Hm. simpl in Hm. lia.
    + apply IH; [lia | lia |].
      replace (Z.to_nat (hi - (i + 1) + 1)) with (Z.to_nat (hi - i)) by lia. lia.
Qed.

Lemma nth_incr (h : list Z) (v j : nat) :
  (j < length h)%nat ->
  nth j (MedianFilter.incr h v) 0 = if Nat.eqb j v then (nth j h 0 + 1) mod 65536 else nth j h 0.
Proof.
  revert v j; induction h as [|x h IH]; intros v j Hj; simpl in Hj; [lia|].
  destruct v as [|v], j as [|j]; simpl; try reflexivity.
  apply IH. lia.
Qed.

Lemma nth_le_sum (h : list Z) (j : nat) :
  (forall i, 0 <= nth i h 0) -> nth j h 0 <= fold_right Z.add 0 h.
Proof.
  revert j; induction h as [|x h IH]; intros j Hnn; simpl; [destruct j; lia|].
  assert (Hx := Hnn 0%nat). simpl in Hx.
  assert (Ht : forall i, 0 <= nth i h 0) by (intros i; apply (Hnn (S i))).
  assert (Hs : 0 <= fold_right Z.add 0 h).
  { clear -Ht. induction h as [|y h IH]; simpl; [lia|]. assert (Hy := Ht 0%nat). simpl in Hy.
    assert (0 <= fold_right Z.add 0 h) by (apply IH; intros i; apply (Ht (S i))). lia. }
  destruct j as [|j]; [lia|]. specialize (IH j Ht). lia.
Qed.

(** Without wrap-around, [hist[v]++] adds one to every prefix sum that
    covers bin [v]. *)
Lemma incr_prefix_sum (h : list Z) (v n : nat) :
  (v < length h)%nat -> nth v h 0 + 1 < 65536 -> 0 <= nth v h 0 ->
  fold_right Z.add 0 (firstn n (MedianFilter.incr h v)) =
  fold_right Z.add 0 (firstn n h) + (if (v <? n)%nat then 1 else 0).
Proof.
  revert v n; induction h as [|x h IH]; intros v n Hv Hx Hx0; simpl in Hv; [lia|].
  destruct n as [|n]; [simpl; destruct v; reflexivity|].
  destruct v as [|v]; cbn [MedianFilter.incr firstn fold_right nth] in *.
  - rewrite Z.mod_small by lia. destruct n; simpl; lia.
  - rewrite IH by (auto; lia). destruct (v <? n)%nat eqn:E1; destruct (S v <? S n)%nat eqn:E2;
      rewrite ?Nat.ltb_lt, ?Nat.ltb_ge in *; lia.
Qed.

Lemma incr_nonneg (h : list Z) (v : nat) :
  (forall i, 0 <= nth i h 0) -> forall i, 0 <= nth i (MedianFilter.incr h v) 0.
Proof.
  revert v; induction h as [|x h IH]; intros v Hnn i; simpl; [destruct i; lia|].
  destruct v as [|v], i as [|i]; simpl.
  - apply Z.mod_pos_bound; lia.
  - apply (Hnn (S i)).
  - apply (Hnn 0%nat).
  - apply IH. intros j. apply (Hnn (S j)).
Qed.

(** The histogram built over samples in [[lo, hi]] of [[0, 255]], as long
    as no bin reaches 65536: bins below [lo] stay as they were and the
    prefix sum up to [hi] grows by the number of samples. *)
Lemma histogram_fold (s : Z -> Z) (l : list Z) (h : list Z) (lo hi : Z) :
  length h = 256%nat -> (forall j, 0 <= nth j h 0) ->
  (forall i, In i l -> 0 <= lo <= s i /\ s i <= hi <= 255) ->
  fold_right Z.add 0 h + Z.of_nat (length l) < 65536 ->
  let h' := fold_left (fun h i => MedianFilter.incr h (Z.to_nat (s i))) l h in
  (forall j, (j < Z.to_nat lo)%nat -> nth j h' 0 = nth j h 0) /\
  fold_right Z.add 0 (firstn (Z.to_nat hi + 1) h') =
    fold_right Z.add 0 (firstn (Z.to_nat hi + 1) h) + Z.of_nat (length l).
Proof.
  revert h; induction l as [|i l IH]; intros h Hlen Hnn Hs Hsum h'; simpl in h'.
  - unfold h'. simpl. split; [reflexivity | lia].
  - set (v := Z.to_nat (s i)) in h'.
    destruct (Hs i (or_introl eq_refl)) as [Hi1 Hi2].
    assert (Hv : (v < length h)%nat) by (unfold v; lia).
    assert (Hnv := nth_le_sum h v Hnn). assert (Hv0 := Hnn v).
    cbn [length] in Hsum. rewrite Nat2Z.inj_succ in Hsum.
    assert (Hall : fold_right Z.add 0 (MedianFilter.incr h v) = fold_right Z.add 0 h + 1).
    { rewrite <- (firstn_all (MedianFilter.incr h v)), length_incr, incr_prefix_sum by lia.
      rewrite firstn_all. replace (v <? length h)%nat with true by (symmetry; apply Nat.ltb_lt; lia).
      reflexivity. }
    destruct (IH (MedianFilter.incr h v)) as [IH1 IH2].
    + rewrite length_incr. exact Hlen.
    + apply incr_nonneg. exact Hnn.
    + intros j Hj. apply Hs. now right.
    + rewrite Hall. lia.
    + split.
      * intros j Hj. unfold h'. rewrite IH1 by exact Hj. rewrite nth_incr by lia.
        replace (Nat.eqb j v) with false by (symmetry; apply Nat.eqb_neq; unfold v; lia).
        reflexivity.
      * unfold h'. rewrite IH2, incr_prefix_sum by lia.
        replace (v <? Z.to_nat hi + 1)%nat with true by (symmetry; apply Nat.ltb_lt; unfold v; lia).
        cbn [length]. rewrite Nat2Z.inj_succ. lia.
Qed.

Lemma createHistogram_props :
  length MedianFilter.createHistogram = 256%nat /\
  (forall j, nth j MedianFilter.createHistogram 0 = 0) /\
  (forall n, fold_right Z.add 0 (firstn n MedianFilter.createHistogram) = 0).
Proof.
  unfold MedianFilter.createHistogram. split; [apply repeat_length|]. split.
  - intros j. destruct (Nat.lt_ge_cases j 256).
    + apply nth_repeat_lt. exact H.
    + apply nth_overflow. rewrite repeat_length. exact H.
  - generalize 256%nat. intros n0. induction n0 as [|n0 IH]; intros [|n]; simpl; auto.
Qed.

(** The channel-level fact: with [1 <= medianIndex <= length l < 65536],
    the median bin lies between the smallest and the largest sample. *)
Lemma median_channel (s : Z -> Z) (l : list Z) (m : Z) :
  (forall i, 0 <= s i <= 255) -> Z.of_nat (length l) < 65536 -> 1 <= m <= Z.of_nat (length l) ->
  let mn := fold_left (fun m i => Z.min m (s i)) l 255 in
  let mx := fold_left (fun m i => Z.max m (s i)) l 0 in
  let hist := fold_left (fun h i => MedianFilter.incr h (Z.to_nat (s i))) l
                MedianFilter.createHistogram in
  mn <= MedianFilter.findMedian m hist <= mx.
Proof.
  intros Hs Hl Hm mn mx hist.
  destruct (fold_min_le s l 255) as [Hmn255 Hmn]. destruct (fold_max_ge s l 0) as [Hmx0 Hmx].
  fold mn in Hmn, Hmn255. fold mx in Hmx, Hmx0.
  assert (H0 : 0 <= mn) by (apply fold_min_lower; [lia | intros i _; apply Hs]).
  assert (Hmx255 : mx <= 255) by (apply fold_max_upper; [lia | intros i _; apply Hs]).
  destruct createHistogram_props as (Hc1 & Hc2 & Hc3).
  destruct (histogram_fold s l MedianFilter.createHistogram mn mx Hc1
                    (fun j => Z.eq_le_incl _ _ (eq_sym (Hc2 j)))) as [A B].
  - intros i Hi. split; [split; [lia | auto] | split; [auto | lia]].
  - rewrite <- (firstn_all MedianFilter.createHistogram), Hc3. lia.
  - fold hist in A, B. rewrite Hc3 in B. unfold MedianFilter.findMedian. split.
    + apply findMedian_from_lower; [lia | lia |]. intros j Hj. rewrite A by lia. apply Hc2.
    + apply findMedian_from_upper; [lia | lia |].
      replace (Z.to_nat (mx - 0 + 1)) with (Z.to_nat mx + 1)%nat by lia. lia.
Qed.

Lemma length_kernelIndices (rad cx cy w h : Z) :
  0 <= rad ->
  Z.of_nat (length (kernelIndices rad cx cy w h)) = (2 * rad + 1) * (2 * rad + 1).
Proof.
  intros Hr. unfold kernelIndices.
  rewrite length_flat_map_blocks with (n := Z.to_nat (rad - - rad + 1)).
  - unfold loop_incl. rewrite length_zrange. nia.
  - intros a. rewrite length_map. unfold loop_incl. apply length_zrange.
Qed.

Lemma odd_half (k : Z) : 1 <= k -> Z.rem k 2 <> 0 -> 2 * (k / 2) + 1 = k.
Proof.
  intros Hk Hr. rewrite Z.rem_mod_nonneg in Hr by lia.
  pose proof (Z.div_mod k 2 ltac:(lia)). pose proof (Z.mod_pos_bound k 2 ltac:(lia)). lia.
Qed.

Ltac new_ok_odd H :=
  match type of H with context [if (Z.rem ?k 2 =? 0) then _ else _] =>
    let E := fresh "Hodd" in
    destruct (Z.rem k 2 =? 0) eqn:E; [discriminate H | injection H as <-; apply Z.eqb_neq in E]
  end.

Lemma median_between_min_and_max_core (k : Z) (d : list Z) (cx cy w h : Z)
    (fmin : MinFilter.t) (fmax : MaxFilter.t) (f : MedianFilter.t) :
  1 <= k <= 255 -> bytes_ok d = true ->
  MinFilter.new k = Ok fmin -> MaxFilter.new k = Ok fmax -> MedianFilter.new k = Ok f ->
  let c := MedianFilter.calculateMedianValues f d cx cy w h in
  rgb_le (MinFilter.calculateMinValues fmin d cx cy w h) c /\
  rgb_le c (MaxFilter.calculateMaxValues fmax d cx cy w h).
Proof.
  intros Hk Hd Hmin Hmax Hf c.
  unfold MinFilter.new in Hmin. new_ok Hmin. unfold MaxFilter.new in Hmax. new_ok Hmax.
  unfold MedianFilter.new in Hf. new_ok_odd Hf.
  unfold c. rewrite MinFilter_calc_eq, MaxFilter_calc_eq. cbn [MinFilter.radius MaxFilter.radius].
  unfold MedianFilter.calculateMedianValues. cbn [MedianFilter.radius MedianFilter.kernelSize].
  assert (Hlen := length_kernelIndices (k / 2) cx cy w h ltac:(apply Z.div_pos; lia)).
  rewrite odd_half in Hlen by (auto; lia).
  set (l := kernelIndices (k / 2) cx cy w h) in *.
  rewrite (fold_left_split3 _ (fun h i => MedianFilter.incr h (Z.to_nat (at_ d i)))
             (fun h i => MedianFilter.incr h (Z.to_nat (at_ d (i + 1))))
             (fun h i => MedianFilter.incr h (Z.to_nat (at_ d (i + 2))))) by (intros; reflexivity).
  cbv zeta. unfold rgb_le. cbn [r g b].
  assert (Hl : Z.of_nat (length l) < 65536) by nia.
  assert (Hm : 1 <= k * k / 2 + 1 <= Z.of_nat (length l)).
  { rewrite Hlen. split; [pose proof (Z.div_pos (k * k) 2); nia|].
    pose proof (Z.div_lt_upper_bound (k * k) 2 (k * k) ltac:(lia) ltac:(nia)). lia. }
  destruct (median_channel (fun i => at_ d i) l (k * k / 2 + 1) (fun i => at_bytes_ok d i Hd) Hl Hm).
  destruct (median_channel (fun i => at_ d (i + 1)) l (k * k / 2 + 1)
              (fun i => at_bytes_ok d (i + 1) Hd) Hl Hm).
  destruct (median_channel (fun i => at_ d (i + 2)) l (k * k / 2 + 1)
              (fun i => at_bytes_ok d (i + 2) Hd) Hl Hm).
  repeat split; assumption.
Qed.

(** X4: for an odd kernel size [1 <= k <= 255] (so that no 16-bit bin of
    the histograms can wrap) and samples in [0, 255], the Median value lies
    between the Min and the Max filter's values, channel by channel. *)
Theorem median_between_min_and_max (k : Z) (d : list Z) (cx cy w h : Z)
    (fmin : MinFilter.t) (fmax : MaxFilter.t) (f : MedianFilter.t) :
  1 <= k <= 255 -> bytes_ok d = true ->
  MinFilter.new k = Ok fmin -> MaxFilter.new k = Ok fmax -> MedianFilter.new k = Ok f ->
  let c := MedianFilter.calculateMedianValues f d cx cy w h in
  rgb_le (MinFilter.calculateMinValues fmin d cx cy w h) c /\
  rgb_le c (MaxFilter.calculateMaxValues fmax d cx cy w h).
Proof. exact (median_between_min_and_max_core k d cx cy w h fmin fmax f). Qed.

Lemma median_between_min_and_max_witness :
  rgb_le (MedianFilter.calculateMedianValues (MedianFilter.mk 3 1) [10; 200; 30; 255] 0 0 1 1)
         (MaxFilter.calculateMaxValues (MaxFilter.mk 3 1) [10; 200; 30; 255] 0 0 1 1).
Proof.
  exact (proj2 (median_between_min_and_max 3 [10; 200; 30; 255] 0 0 1 1
                  (MinFilter.mk 3 1) (MaxFilter.mk 3 1) (MedianFilter.mk 3 1)
                  ltac:(lia) ltac:(vm_compute; reflexivity) eq_refl eq_refl eq_refl)).
Defined.

(** ** Order and duality *)

Lemma fold_left_ext_in {A : Type} (F G : A -> Z -> A) (l : list Z) (a : A) :
  (forall x i, In i l -> F x i = G x i) -> fold_left F l a = fold_left G l a.
Proof.
  revert a; induction l as [|i l IH]; intros a H; simpl; [reflexivity|].
  rewrite H by (now left). apply IH. intros x j Hj. apply H. now right.
Qed.

Lemma fold_min_invert (s : Z -> Z) (l : list Z) (a : Z) :
  fold_left (fun m i => Z.min m (255 - s i)) l (255 - a) =
  255 - fold_left (fun m i => Z.max m (s i)) l a.
Proof.
  revert a; induction l as [|i l IH]; intros a; cbn [fold_left]; [reflexivity|].
  replace (Z.min (255 - a) (255 - s i)) with (255 - Z.max a (s i)) by lia. apply IH.
Qed.

Lemma fold_max_invert (s : Z -> Z) (l : list Z) (a : Z) :
  fold_left (fun m i => Z.max m (255 - s i)) l (255 - a) =
  255 - fold_left (fun m i => Z.min m (s i)) l a.
Proof.
  revert a; induction l as [|i l IH]; intros a; cbn [fold_left]; [reflexivity|].
  replace (Z.max (255 - a) (255 - s i)) with (255 - Z.min a (s i)) by lia. apply IH.
Qed.

Lemma at_invert (d : list Z) (i : Z) :
  0 <= i < Z.of_nat (length d) -> at_ (invert d) i = 255 - at_ d i.
Proof.
  intros Hi. unfold at_, invert.
  rewrite nth_indep with (d' := (fun v => 255 - v) 0) by (rewrite length_map; lia).
  rewrite map_nth. reflexivity.
Qed.

Lemma fold_min_of_invert (d : list Z) (l : list Z) (off : Z -> Z) :
  (forall i, In i l -> 0 <= off i < Z.of_nat (length d)) ->
  fold_left (fun m i => Z.min m (at_ (invert d) (off i))) l 255 =
  255 - fold_left (fun m i => Z.max m (at_ d (off i))) l 0.
Proof.
  intros Hin.
  rewrite (fold_left_ext_in _ (fun m i => Z.min m (255 - at_ d (off i))))
    by (intros x i Hi; rewrite at_invert by auto; reflexivity).
  apply (fold_min_invert (fun i => at_ d (off i)) l 0).
Qed.

Lemma fold_max_of_invert (d : list Z) (l : list Z) (off : Z -> Z) :
  (forall i, In i l -> 0 <= off i < Z.of_nat (length d)) ->
  fold_left (fun m i => Z.max m (at_ (invert d) (off i))) l 0 =
  255 - fold_left (fun m i => Z.min m (at_ d (off i))) l 255.
Proof.
  intros Hin.
  rewrite (fold_left_ext_in _ (fun m i => Z.max m (255 - at_ d (off i))))
    by (intros x i Hi; rewrite at_invert by auto; reflexivity).
  apply (fold_max_invert (fun i => at_ d (off i)) l 255).
Qed.

(** X5: on a well-formed non-empty raster, the Min filter of the negative
    image [255 - v] is the negative of the Max filter of the image, and
    the Max filter of the negative is the negative of the Min filter, at
    every centre. *)
Theorem min_max_negative_duality (img : ImageData) (k cx cy : Z)
    (fmin : MinFilter.t) (fmax : MaxFilter.t) :
  wf_imageb img = true -> 1 <= width img -> 1 <= height img ->
  MinFilter.new k = Ok fmin -> MaxFilter.new k = Ok fmax ->
  let w := width img in let h := height img in
  let neg c := mkRGB (255 - r c) (255 - g c) (255 - b c) in
  MinFilter.calculateMinValues fmin (invert (data img)) cx cy w h =
    neg (MaxFilter.calculateMaxValues fmax (data img) cx cy w h) /\
  MaxFilter.calculateMaxValues fmax (invert (data img)) cx cy w h =
    neg (MinFilter.calculateMinValues fmin (data img) cx cy w h).
Proof.
  intros Hwf Hw Hh Hmin Hmax w h neg.
  unfold MinFilter.new in Hmin. new_ok Hmin. unfold MaxFilter.new in Hmax. new_ok Hmax.
  destruct (wf_imageb_spec img Hwf) as (_ & _ & Hlen & _).
  rewrite !MinFilter_calc_eq, !MaxFilter_calc_eq. cbn [MinFilter.radius MaxFilter.radius].
  set (l := kernelIndices (k / 2) cx cy w h). cbv zeta. unfold neg. cbn [r g b].
  assert (Hin : forall j, 0 <= j < 3 -> forall i, In i l -> 0 <= i + j < Z.of_nat (length (data img))).
  { intros j Hj i Hi. destruct (kernelIndices_bounds (k / 2) cx cy w h i Hw Hh Hi) as (A & B & _).
    rewrite Hlen. lia. }
  assert (Hin0 : forall i, In i l -> 0 <= i < Z.of_nat (length (data img))).
  { intros i Hi. pose proof (Hin 0 ltac:(lia) i Hi). lia. }
  split; f_equal;
    first [ apply (fold_min_of_invert (data img) l (fun i => i) Hin0)
          | apply (fold_min_of_invert (data img) l (fun i => i + 1) (Hin 1 ltac:(lia)))
          | apply (fold_min_of_invert (data img) l (fun i => i + 2) (Hin 2 ltac:(lia)))
          | apply (fold_max_of_invert (data img) l (fun i => i) Hin0)
          | apply (fold_max_of_invert (data img) l (fun i => i + 1) (Hin 1 ltac:(lia)))
          | apply (fold_max_of_invert (data img) l (fun i => i + 2) (Hin 2 ltac:(lia))) ].
Qed.

Lemma min_max_negative_duality_witness :
  MinFilter.calculateMinValues (MinFilter.mk 3 1) (invert [10; 200; 30; 255; 90; 0; 60; 255]) 1 0 2 1 =
  mkRGB (255 - r (MaxFilter.calculateMaxValues (MaxFilter.mk 3 1) [10; 200; 30; 255; 90; 0; 60; 255] 1 0 2 1))
        (255 - g (MaxFilter.calculateMaxValues (MaxFilter.mk 3 1) [10; 200; 30; 255; 90; 0; 60; 255] 1 0 2 1))
        (255 - b (MaxFilter.calculateMaxValues (MaxFilter.mk 3 1) [10; 200; 30; 255; 90; 0; 60; 255] 1 0 2 1)).
Proof.
  exact (proj1 (min_max_negative_duality (mkImageData 2 1 [10; 200; 30; 255; 90; 0; 60; 255]) 3 1 0
                  (MinFilter.mk 3 1) (MaxFilter.mk 3 1)
                  ltac:(vm_compute; reflexivity) ltac:(cbn; lia) ltac:(cbn; lia) eq_refl eq_refl)).
Defined.

Lemma data_leb_at (d d' : list Z) (i : Z) : data_leb d d' = true -> at_ d i <= at_ d' i.
Proof.
  unfold at_. generalize (Z.to_nat i) as n. revert d'.
  induction d as [|v d IH]; intros [|v' d'] n H; simpl in H; try discriminate.
  - destruct n; lia.
  - apply andb_prop in H as [H1 H2]. apply Z.leb_le in H1.
    destruct n as [|n]; simpl; [exact H1 | apply IH; exact H2].
Qed.

Lemma fold_min_mono (s s' : Z -> Z) (l : list Z) (a a' : Z) :
  a <= a' -> (forall i, s i <= s' i) ->
  fold_left (fun m i => Z.min m (s i)) l a <= fold_left (fun m i => Z.min m (s' i)) l a'.
Proof.
  revert a a'; induction l as [|i l IH]; intros a a' Ha Hs; cbn [fold_left]; [exact Ha|].
  apply IH; [specialize (Hs i); lia | exact Hs].
Qed.

Lemma fold_max_mono (s s' : Z -> Z) (l : list Z) (a a' : Z) :
  a <= a' -> (forall i, s i <= s' i) ->
  fold_left (fun m i => Z.max m (s i)) l a <= fold_left (fun m i => Z.max m (s' i)) l a'.
Proof.
  revert a a'; induction l as [|i l IH]; intros a a' Ha Hs; cbn [fold_left]; [exact Ha|].
  apply IH; [specialize (Hs i); lia | exact Hs].
Qed.

Lemma Zsum_mono (f f' : Z -> Z) (l : list Z) :
  (forall i, f i <= f' i) -> Zsum f l <= Zsum f' l.
Proof. intros H. induction l as [|i l IH]; simpl; [lia|]. specialize (H i). lia. Qed.

Section Monotone.

Local Open Scope R_scope.

Lemma Math_round_R_mono (x y : R) : x <= y -> (Math_round_R x <= Math_round_R y)%Z.
Proof.
  intros H. destruct (Math_round_R_spec x) as [A B]. destruct (Math_round_R_spec y) as [C D].
  destruct (Z_le_gt_dec (Math_round_R x) (Math_round_R y)) as [E|E]; [exact E|].
  assert (F : IZR (Math_round_R y + 1) <= IZR (Math_round_R x)) by (apply IZR_le; lia).
  rewrite plus_IZR in F. lra.
Qed.

Lemma Math_round_div_mono (s s' n : Z) :
  (0 < n)%Z -> (s <= s')%Z ->
  (Math_round (inject_Z s / inject_Z n) <= Math_round (inject_Z s' / inject_Z n))%Z.
Proof.
  intros Hn Hs. rewrite !Math_round_div by exact Hn. apply Math_round_R_mono.
  assert (0 < IZR n) by (apply (IZR_lt 0); lia). apply IZR_le in Hs.
  unfold Rdiv. apply Rmult_le_compat_r; [apply Rlt_le, Rinv_0_lt_compat; lra | exact Hs].
Qed.

Lemma geometric_mono (s s' : Z -> Z) (l : list Z) :
  (1 <= length l)%nat -> (forall i, (0 <= s i)%Z) -> (forall i, (s i <= s' i)%Z) ->
  (Math_round_R (exp (Rsum (fun i => ln (IZR (s i) + epsilon)%R) l / IZR (Z.of_nat (length l))))
   <= Math_round_R (exp (Rsum (fun i => ln (IZR (s' i) + epsilon)%R) l
                         / IZR (Z.of_nat (length l)))))%Z.
Proof.
  intros Hl H0 Hs. destruct epsilon_bounds as [He _].
  apply Math_round_R_mono, exp_le_mono.
  assert (0 < IZR (Z.of_nat (length l))) by (apply (IZR_lt 0); lia).
  unfold Rdiv. apply Rmult_le_compat_r; [apply Rlt_le, Rinv_0_lt_compat; lra|].
  apply Rsum_le. intros i _. specialize (H0 i). specialize (Hs i).
  apply IZR_le in H0, Hs. apply ln_le_mono; lra.
Qed.

Lemma harmonic_mono (s s' : Z -> Z) (l : list Z) :
  (1 <= length l)%nat -> (forall i, (0 <= s i)%Z) -> (forall i, (s i <= s' i)%Z) ->
  (Math_round_R (IZR (Z.of_nat (length l)) / Rsum (fun i => 1 / (IZR (s i) + epsilon))%R l)
   <= Math_round_R (IZR (Z.of_nat (length l)) / Rsum (fun i => 1 / (IZR (s' i) + epsilon))%R l))%Z.
Proof.
  intros Hl H0 Hs. destruct epsilon_bounds as [He _].
  assert (Hpos : forall i, 0 < IZR (s i) + epsilon).
  { intros i. specialize (H0 i). apply (IZR_le 0) in H0. lra. }
  assert (Hpos' : forall i, 0 < IZR (s' i) + epsilon).
  { intros i. specialize (H0 i). specialize (Hs i). apply (IZR_le 0) in H0. apply IZR_le in Hs. lra. }
  set (A := Rsum (fun i => 1 / (IZR (s i) + epsilon)) l).
  set (A' := Rsum (fun i => 1 / (IZR (s' i) + epsilon)) l).
  assert (HA' : 0 < A').
  { unfold A'. destruct l as [|i l]; [simpl in Hl; lia|]. cbn [Rsum].
    assert (0 < 1 / (IZR (s' i) + epsilon)) by (unfold Rdiv; rewrite Rmult_1_l; apply Rinv_0_lt_compat, Hpos').
    assert (0 <= Rsum (fun i => 1 / (IZR (s' i) + epsilon)) l).
    { apply Rsum_pos. intros j. unfold Rdiv. rewrite Rmult_1_l. apply Rinv_0_lt_compat, Hpos'. }
    lra. }
  assert (HAA : A' <= A).
  { apply Rsum_le. intros i _. unfold Rdiv. rewrite !Rmult_1_l. apply Rinv_le_contravar; [apply Hpos|].
    specialize (Hs i). apply IZR_le in Hs. lra. }
  assert (Hn : 0 < IZR (Z.of_nat (length l))) by (apply (IZR_lt 0); lia).
  apply Math_round_R_mono. unfold Rdiv. apply Rmult_le_compat_l; [lra|].
  apply Rinv_le_contravar; assumption.
Qed.

End Monotone.

(** X6: for an odd kernel size [k >= 1], if every cell of a buffer [d] of
    bytes is at most the same cell of a buffer [d'] of bytes, then the
    Min, Max, ArithmeticMean, Midpoint, GeometricMean and HarmonicMean
    values on [d] are at most those on [d'], channel by channel, at every
    centre. *)
Theorem filters_monotone (k : Z) (d d' : list Z) (cx cy w h : Z) :
  1 <= k -> bytes_ok d = true -> bytes_ok d' = true -> data_leb d d' = true ->
  (forall f, MinFilter.new k = Ok f ->
     rgb_le (MinFilter.calculateMinValues f d cx cy w h) (MinFilter.calculateMinValues f d' cx cy w h)) /\
  (forall f, MaxFilter.new k = Ok f ->
     rgb_le (MaxFilter.calculateMaxValues f d cx cy w h) (MaxFilter.calculateMaxValues f d' cx cy w h)) /\
  (forall f, MeanFilter.new k = Ok f ->
     rgb_le (MeanFilter.calculateMeanValues f d cx cy w h)
            (MeanFilter.calculateMeanValues f d' cx cy w h)) /\
  (forall f, MidpointFilter.new k = Ok f ->
     rgb_le (MidpointFilter.calculateMidpointValues f d cx cy w h)
            (MidpointFilter.calculateMidpointValues f d' cx cy w h)) /\
  (forall f, GeometricMeanFilter.new k = Ok f ->
     rgb_le (GeometricMeanFilter.calculateGeometricMean f d cx cy w h)
            (GeometricMeanFilter.calculateGeometricMean f d' cx cy w h)) /\
  (forall f, HarmonicMeanFilter.new k = Ok f ->
     rgb_le (HarmonicMeanFilter.calculateHarmonicMean f d cx cy w h)
            (HarmonicMeanFilter.calculateHarmonicMean f d' cx cy w h)).
Proof.
  intros Hk Hd Hd' Hle.
  assert (Hl := kernelIndices_nonempty k cx cy w h Hk).
  set (l := kernelIndices (k / 2) cx cy w h) in Hl.
  assert (Hs : forall j i, at_ d (i + j) <= at_ d' (i + j)) by (intros; apply data_leb_at, Hle).
  assert (Hs0 : forall i, at_ d i <= at_ d' i) by (intros; apply data_leb_at, Hle).
  assert (H0 : forall j i, 0 <= at_ d (i + j)) by (intros; apply at_bytes_ok, Hd).
  assert (H00 : forall i, 0 <= at_ d i) by (intros; apply at_bytes_ok, Hd).
  unfold rgb_le.
  split; [|split; [|split; [|split; [|split]]]]; intros f Hf.
  - unfold MinFilter.new in Hf. new_ok Hf. rewrite !MinFilter_calc_eq. cbv zeta. cbn [r g b].
    split; [|split]; apply fold_min_mono; auto; lia.
  - unfold MaxFilter.new in Hf. new_ok Hf. rewrite !MaxFilter_calc_eq. cbv zeta. cbn [r g b].
    split; [|split]; apply fold_max_mono; auto; lia.
  - unfold MeanFilter.new in Hf. new_ok Hf.
    unfold MeanFilter.calculateMeanValues. cbn [MeanFilter.radius]. fold l.
    rewrite !(fold_left_sum_Z4 _ (fun i => at_ _ i) (fun i => at_ _ (i + 1))
                (fun i => at_ _ (i + 2))) by (intros; reflexivity).
    cbv beta iota. cbn [r g b]. rewrite !Z.add_0_l.
    split; [|split]; apply Math_round_div_mono; try lia; apply Zsum_mono; auto.
  - unfold MidpointFilter.new in Hf. new_ok Hf.
    rewrite !MidpointFilter_calc_eq. cbn [MidpointFilter.radius]. fold l. cbv zeta. cbn [r g b].
    change 2%Q with (inject_Z 2).
    split; [|split]; apply Math_round_div_mono; try lia;
      apply Z.add_le_mono; first [apply fold_min_mono | apply fold_max_mono]; auto; lia.
  - unfold GeometricMeanFilter.new in Hf. new_ok Hf.
    unfold GeometricMeanFilter.calculateGeometricMean. cbn [GeometricMeanFilter.radius]. fold l.
    rewrite !(fold_left_sum_R3Z _ (fun i => ln (sample _ i  + epsilon)%R)
                (fun i => ln (sample _ (i + 1) + epsilon)%R)
                (fun i => ln (sample _ (i + 2) + epsilon)%R)) by (intros; reflexivity).
    cbv beta iota. cbn [r g b]. rewrite !Z.add_0_l, !Rplus_0_l. unfold sample.
    split; [|split]; apply geometric_mono; auto.
  - unfold HarmonicMeanFilter.new in Hf. new_ok Hf.
    unfold HarmonicMeanFilter.calculateHarmonicMean. cbn [HarmonicMeanFilter.radius]. fold l.
    rewrite !(fold_left_sum_R3Z _ (fun i => (1 / (sample _ i + epsilon))%R)
                (fun i => (1 / (sample _ (i + 1) + epsilon))%R)
                (fun i => (1 / (sample _ (i + 2) + epsilon))%R)) by (intros; reflexivity).
    cbv beta iota. cbn [r g b]. rewrite !Z.add_0_l, !Rplus_0_l. unfold sample.
    split; [|split]; apply harmonic_mono; auto.
Qed.

Lemma filters_monotone_witness :
  rgb_le (MeanFilter.calculateMeanValues (MeanFilter.mk 3 1) [10; 20; 30; 255; 40; 50; 60; 255] 0 0 2 1)
         (MeanFilter.calculateMeanValues (MeanFilter.mk 3 1) [11; 20; 35; 255; 40; 90; 60; 255] 0 0 2 1).
Proof.
  destruct (filters_monotone 3 [10; 20; 30; 255; 40; 50; 60; 255] [11; 20; 35; 255; 40; 90; 60; 255]
              0 0 2 1 ltac:(lia) ltac:(vm_compute; reflexivity) ltac:(vm_compute; reflexivity)
              ltac:(vm_compute; reflexivity)) as (_ & _ & H & _).
  exact (H _ eq_refl).
Defined.

(** ** Uniform rasters *)
















(** ** The noisy test image *)

Lemma length_typedArraySet (l : list Z) (i : nat) (v : Z) :
  length (typedArraySet l i v) = length l.
Proof.
  revert i; induction l as [|x l IH]; intros i; destruct i; simpl; auto.
Qed.

Lemma nth_typedArraySet (l : list Z) (i j : nat) (v : Z) :
  nth j (typedArraySet l i v) 0 = if Nat.eqb j i && Nat.ltb i (length l) then v else nth j l 0.
Proof.
  revert i j; induction l as [|x l IH]; intros i j.
  - simpl. rewrite andb_false_r. destruct j; reflexivity.
  - destruct i as [|i], j as [|j]; cbn [typedArraySet nth length]; try reflexivity.
    rewrite IH. reflexivity.
Qed.

Lemma nth_noiseStep (random : nat -> Q) (d : list Z) (k k' t : nat) :
  (t < 4)%nat ->
  nth (4 * k' + t) (MeanFilter.noiseStep random d k) 0 =
    if Nat.eqb k' k && Nat.ltb t 3 && Nat.ltb (4 * k' + t) (length d)
    then noisyCell random d (4 * k' + t) k else nth (4 * k' + t) d 0.
Proof.
  intros Ht. unfold MeanFilter.noiseStep, noisyCell. cbv zeta.
  rewrite !nth_typedArraySet, !length_typedArraySet.
  destruct (Nat.eqb_spec k' k) as [<-|Hk].
  - assert (Ht' : t = 0%nat \/ t = 1%nat \/ t = 2%nat \/ t = 3%nat) by lia.
    destruct Ht' as [ -> | [ -> | [ -> | -> ]]]; rewrite ?Nat.add_0_r;
      rewrite ?Nat.eqb_refl; cbn [andb];
      repeat match goal with
      | |- context [Nat.eqb ?a ?b] =>
          let E := fresh in destruct (Nat.eqb_spec a b) as [E|E]; [lia|]
      end; cbn [andb]; try reflexivity;
      repeat match goal with
      | |- context [Nat.ltb ?a ?b] => destruct (Nat.ltb a b); cbn [andb]
      end; reflexivity.
  - repeat match goal with
      | |- context [Nat.eqb ?a ?b] =>
          let E := fresh in destruct (Nat.eqb_spec a b) as [E|E]; [lia|]
      end; reflexivity.
Qed.

Lemma nth_fold_noiseStep (random : nat -> Q) (n : nat) :
  forall (s : nat) (d : list Z) (k t : nat), (t < 4)%nat ->
  nth (4 * k + t) (fold_left (MeanFilter.noiseStep random) (seq s n) d) 0 =
    if Nat.leb s k && Nat.ltb k (s + n) && Nat.ltb t 3 && Nat.ltb (4 * k + t) (length d)
    then noisyCell random d (4 * k + t) k else nth (4 * k + t) d 0.
Proof.
  induction n as [|n IH]; intros s d k t Ht.
  - cbn [seq fold_left].
    destruct (Nat.leb_spec s k), (Nat.ltb_spec k (s + 0)); cbn [andb]; try reflexivity; lia.
  - cbn [seq fold_left]. rewrite IH by exact Ht.
    rewrite nth_noiseStep by exact Ht.
    unfold MeanFilter.noiseStep at 1. rewrite !length_typedArraySet.
    destruct (Nat.eqb_spec k s) as [->|Hks].
    + replace (Nat.leb (S s) s) with false by (symmetry; apply Nat.leb_gt; lia).
      rewrite Nat.leb_refl. replace (Nat.ltb s (s + S n)) with true by (symmetry; apply Nat.ltb_lt; lia).
      reflexivity.
    + replace (Nat.leb (S s) k && Nat.ltb k (S s + n)) with (Nat.leb s k && Nat.ltb k (s + S n)).
      2:{ destruct (Nat.leb_spec s k), (Nat.ltb_spec k (s + S n)),
            (Nat.leb_spec (S s) k), (Nat.ltb_spec k (S s + n)); cbn [andb]; try reflexivity; lia. }
      destruct (Nat.leb s k && Nat.ltb k (s + S n)); cbn [andb]; [|reflexivity].
      destruct (Nat.ltb t 3 && Nat.ltb (4 * k + t) (length d)) eqn:E; [|reflexivity].
      unfold noisyCell at 1 2. rewrite nth_noiseStep by exact Ht.
      replace (Nat.eqb k s) with false by (symmetry; apply Nat.eqb_neq; exact Hks).
      reflexivity.
Qed.

(** Every cell of the noisy raster: R, G and B cells get their noisy
    value, alpha cells are left as they were. *)
Lemma nth_createNoisyTestImage (random : nat -> Q) (img : ImageData) (k t : nat) :
  (t < 4)%nat -> (4 * k + t < length (data img))%nat ->
  nth (4 * k + t) (data (MeanFilter.createNoisyTestImage random img)) 0 =
    if Nat.ltb t 3 then noisyCell random (data img) (4 * k + t) k else nth (4 * k + t) (data img) 0.
Proof.
  intros Ht Hj. unfold MeanFilter.createNoisyTestImage. cbn [data].
  rewrite nth_fold_noiseStep by exact Ht.
  replace (Nat.leb 0 k && Nat.ltb k (0 + (length (data img) + 3) / 4)) with true.
  2:{ symmetry. apply andb_true_intro. split; [apply Nat.leb_le; lia|].
      apply Nat.ltb_lt. rewrite Nat.add_0_l.
      apply Nat.div_le_lower_bound; lia. }
  replace (Nat.ltb (4 * k + t) (length (data img))) with true by (symmetry; apply Nat.ltb_lt; exact Hj).
  destruct (Nat.ltb t 3); reflexivity.
Qed.

Lemma length_createNoisyTestImage (random : nat -> Q) (img : ImageData) :
  length (data (MeanFilter.createNoisyTestImage random img)) = length (data img).
Proof.
  unfold MeanFilter.createNoisyTestImage. cbn [data].
  generalize (seq 0 ((length (data img) + 3) / 4)). intros l.
  generalize (data img). induction l as [|k l IH]; intros d; simpl; [reflexivity|].
  rewrite IH. unfold MeanFilter.noiseStep. rewrite !length_typedArraySet. reflexivity.
Qed.

Lemma Qle_bool_true (a b : Q) : Qle_bool a b = true -> (Q2R a <= Q2R b)%R.
Proof. intros H. apply Qreals.Qle_Rle. apply Qle_bool_iff. exact H. Qed.

Lemma Qle_bool_false (a b : Q) : Qle_bool a b = false -> (Q2R b < Q2R a)%R.
Proof.
  intros H. apply Qreals.Qlt_Rlt. apply Qnot_le_lt. intros H'.
  apply Qle_bool_iff in H'. congruence.
Qed.

Lemma Q2R_0 : Q2R 0 = 0%R.
Proof. exact (Q2R_inject_Z 0). Qed.

Lemma Q2R_255 : Q2R 255 = 255%R.
Proof. exact (Q2R_inject_Z 255). Qed.

Lemma clampQ_R (y : Q) : Q2R (clampQ 0 255 y) = Rmax 0 (Rmin 255 (Q2R y)).
Proof.
  unfold clampQ, Qltb.
  destruct (Qle_bool y 255) eqn:E1; cbn [negb].
  - apply Qle_bool_true in E1. rewrite Q2R_255 in E1. rewrite (Rmin_right 255) by lra.
    destruct (Qle_bool 0 y) eqn:E2; cbn [negb].
    + apply Qle_bool_true in E2. rewrite Q2R_0 in E2. rewrite Rmax_right by lra. reflexivity.
    + apply Qle_bool_false in E2. rewrite Q2R_0 in E2. rewrite Rmax_left by lra. exact Q2R_0.
  - apply Qle_bool_false in E1. rewrite Q2R_255 in E1. rewrite (Rmin_left 255) by lra.
    replace (Qle_bool 0 255) with true by reflexivity. cbn [negb].
    rewrite Rmax_right by lra. exact Q2R_255.
Qed.

(** [ToUint8Clamp] stores a byte, and on [0, 255] one within [1/2] of
    its argument. *)
Lemma toUint8ClampQ_spec (x : Q) :
  (0 <= toUint8ClampQ x <= 255)%Z /\
  ((0 <= Q2R x <= 255)%R -> (Q2R x - / 2 <= IZR (toUint8ClampQ x) <= Q2R x + / 2)%R).
Proof.
  unfold toUint8ClampQ, Qltb.
  destruct (Qle_bool x 0) eqn:E1.
  { apply Qle_bool_true in E1. rewrite Q2R_0 in E1. split; [lia|]. intros H. lra. }
  apply Qle_bool_false in E1. rewrite Q2R_0 in E1.
  destruct (Qle_bool 255 x) eqn:E2.
  { apply Qle_bool_true in E2. rewrite Q2R_255 in E2. split; [lia|]. intros H. lra. }
  apply Qle_bool_false in E2. rewrite Q2R_255 in E2.
  set (f := Qfloor x).
  assert (Hf1 : (IZR f <= Q2R x)%R).
  { rewrite <- Q2R_inject_Z. apply Qreals.Qle_Rle. apply Qfloor_le. }
  assert (Hf2 : (Q2R x < IZR f + 1)%R).
  { rewrite <- (Q2R_inject_Z 1), <- Q2R_inject_Z, <- Qreals.Q2R_plus. apply Qreals.Qlt_Rlt.
    rewrite <- inject_Z_plus. apply Qlt_floor. }
  assert (Hf3 : (0 <= f <= 254)%Z).
  { assert (A : (IZR (Z.opp 1) < IZR f)%R) by (rewrite opp_IZR; lra).
    assert (B : (IZR f < IZR 255)%R) by lra.
    apply lt_IZR in A, B. lia. }
  assert (Hh : Q2R (inject_Z f + (1 # 2)) = (IZR f + / 2)%R).
  { rewrite Qreals.Q2R_plus, Q2R_inject_Z. f_equal. unfold Q2R. simpl. field. }
  destruct (Qle_bool x (inject_Z f + (1 # 2))) eqn:E3; cbn [negb].
  - apply Qle_bool_true in E3. rewrite Hh in E3.
    destruct (Qle_bool (inject_Z f + (1 # 2)) x) eqn:E4; cbn [negb].
    + apply Qle_bool_true in E4. rewrite Hh in E4.
      destruct (Z.even f); (split; [lia|]); intros _; rewrite ?plus_IZR; lra.
    + apply Qle_bool_false in E4. rewrite Hh in E4. split; [lia|]. intros _. lra.
  - apply Qle_bool_false in E3. rewrite Hh in E3. split; [lia|]. intros _. rewrite plus_IZR. lra.
Qed.

Lemma nat_block4 (j : nat) : (j = 4 * (j / 4) + j mod 4 /\ j mod 4 < 4)%nat.
Proof. split; [apply Nat.div_mod_eq | apply Nat.mod_upper_bound; lia]. Qed.

Lemma noisyCell_byte (random : nat -> Q) (d : list Z) (j k : nat) :
  0 <= noisyCell random d j k <= 255.
Proof. unfold noisyCell. apply toUint8ClampQ_spec. Qed.

(** X8: [createNoisyTestImage] keeps the width, the height and the buffer
    length, never changes an alpha cell (offset [3] of a pixel), and turns
    a well-formed raster into a well-formed raster. *)
Theorem noisy_image_keeps_geometry_and_alpha (random : nat -> Q) (img : ImageData) :
  wf_imageb img = true ->
  let out := MeanFilter.createNoisyTestImage random img in
  width out = width img /\ height out = height img /\
  length (data out) = length (data img) /\
  (forall j, (j mod 4 = 3)%nat -> nth j (data out) 0 = nth j (data img) 0) /\
  wf_imageb out = true.
Proof.
  intros Hwf. cbv zeta.
  assert (Hlen := length_createNoisyTestImage random img).
  assert (Hcell : forall j, (j < length (data img))%nat ->
            nth j (data (MeanFilter.createNoisyTestImage random img)) 0 =
            if Nat.ltb (j mod 4) 3 then noisyCell random (data img) j (j / 4)
            else nth j (data img) 0).
  { intros j Hj. destruct (nat_block4 j) as [Ej Hm].
    pose proof (nth_createNoisyTestImage random img (j / 4) (j mod 4) Hm ltac:(lia)) as E.
    rewrite <- Ej in E. exact E. }
  assert (Halpha : forall j, (j mod 4 = 3)%nat -> nth j (data (MeanFilter.createNoisyTestImage random img)) 0 = nth j (data img) 0).
  { intros j Hj. destruct (Nat.lt_ge_cases j (length (data img))) as [Hl|Hl].
    - rewrite Hcell by exact Hl. rewrite Hj. reflexivity.
    - rewrite !nth_overflow by lia. reflexivity. }
  split; [reflexivity|]. split; [reflexivity|]. split; [exact Hlen|]. split; [exact Halpha|].
  unfold wf_imageb.
  change (width (MeanFilter.createNoisyTestImage random img)) with (width img).
  change (height (MeanFilter.createNoisyTestImage random img)) with (height img).
  rewrite Hlen.
  unfold wf_imageb in Hwf. apply andb_prop in Hwf as [Hwf Hb]. rewrite Hwf. cbn [andb].
  apply forallb_forall. intros v Hv.
  apply (In_nth _ _ 0) in Hv as (j & Hj & <-).
  rewrite Hlen in Hj. rewrite Hcell by exact Hj.
  destruct (Nat.ltb (j mod 4) 3).
  - destruct (noisyCell_byte random (data img) j (j / 4)). apply andb_true_intro; split; apply Z.leb_le; lia.
  - rewrite forallb_forall in Hb. apply Hb. apply nth_In. exact Hj.
Qed.

Lemma noisy_image_keeps_geometry_and_alpha_witness :
  wf_imageb (mkImageData 1 1 [10; 20; 30; 255]) = true /\
  let out := MeanFilter.createNoisyTestImage (fun _ => 1 # 3) (mkImageData 1 1 [10; 20; 30; 255]) in
  width out = 1 /\ height out = 1 /\ length (data out) = length [10; 20; 30; 255] /\
  (forall j, (j mod 4 = 3)%nat -> nth j (data out) 0 = nth j [10; 20; 30; 255] 0) /\
  wf_imageb out = true.
Proof.
  split; [vm_compute; reflexivity|].
  apply (noisy_image_keeps_geometry_and_alpha (fun _ => 1 # 3) (mkImageData 1 1 [10; 20; 30; 255])).
  vm_compute; reflexivity.
Defined.

(** The noisy value of a byte [v] with [0 <= Math.random() < 1] stays
    within [50] of [v]. *)
Lemma noisyCell_close (random : nat -> Q) (d : list Z) (j k : nat) :
  (0 <= random k < 1)%Q -> 0 <= nth j d 0 <= 255 ->
  Z.abs (noisyCell random d j k - nth j d 0) <= 50.
Proof.
  intros [Hr0 Hr1] Hv. unfold noisyCell.
  set (v := nth j d 0) in *.
  set (y := (inject_Z v + (random k - (1 # 2)) * 100)%Q).
  assert (Hy : Q2R y = (IZR v + (Q2R (random k) - / 2) * 100)%R).
  { unfold y. rewrite Qreals.Q2R_plus, Qreals.Q2R_mult, Qreals.Q2R_minus, Q2R_inject_Z.
    change 100%Q with (inject_Z 100). rewrite Q2R_inject_Z.
    replace (Q2R (1 # 2)) with (/ 2)%R by (unfold Q2R; simpl; field). reflexivity. }
  apply Qreals.Qle_Rle in Hr0. apply Qreals.Qlt_Rlt in Hr1.
  rewrite Q2R_0 in Hr0. change 1%Q with (inject_Z 1) in Hr1. rewrite Q2R_inject_Z in Hr1.
  assert (HvR : (0 <= IZR v <= 255)%R) by (split; [apply IZR_le | apply (IZR_le v 255)]; lia).
  assert (Hc := clampQ_R y).
  set (c := clampQ 0 255 y) in *.
  assert (Hc1 : (0 <= Q2R c <= 255)%R /\ (IZR v - 50 <= Q2R c <= IZR v + 50)%R).
  { rewrite Hc, Hy.
    destruct (Rle_dec (IZR v + (Q2R (random k) - / 2) * 100) 255) as [A|A].
    - rewrite (Rmin_right 255) by lra.
      destruct (Rle_dec 0 (IZR v + (Q2R (random k) - / 2) * 100)) as [B|B].
      + rewrite Rmax_right by lra. lra.
      + rewrite Rmax_left by lra. lra.
    - rewrite (Rmin_left 255) by lra. rewrite Rmax_right by lra. lra. }
  destruct (toUint8ClampQ_spec c) as [_ Hu].
  specialize (Hu (proj1 Hc1)).
  assert (H1 : (IZR (toUint8ClampQ c - v) < IZR 51)%R) by (rewrite minus_IZR; lra).
  assert (H2 : (IZR (Z.opp 51) < IZR (toUint8ClampQ c - v))%R) by (rewrite minus_IZR, opp_IZR; lra).
  apply lt_IZR in H1, H2. lia.
Qed.

(** X9: when [Math.random()] stays in [0, 1), [createNoisyTestImage] moves
    every cell of a byte raster by at most [50]. *)
Theorem noisy_image_noise_bounded (random : nat -> Q) (img : ImageData) :
  (forall k, 0 <= random k < 1)%Q -> bytes_ok (data img) = true ->
  forall j, Z.abs (nth j (data (MeanFilter.createNoisyTestImage random img)) 0 - nth j (data img) 0) <= 50.
Proof.
  intros Hr Hd j.
  destruct (Nat.lt_ge_cases j (length (data img))) as [Hl|Hl].
  - destruct (nat_block4 j) as [Ej Hm]. rewrite Ej.
    rewrite nth_createNoisyTestImage by (exact Hm || lia).
    destruct (Nat.ltb (j mod 4) 3).
    + apply noisyCell_close; [apply Hr|].
      apply (at_bytes_ok (data img) (Z.of_nat (4 * (j / 4) + j mod 4))) in Hd.
      unfold at_ in Hd. rewrite Nat2Z.id in Hd. exact Hd.
    + lia.
  - rewrite !nth_overflow; [lia | lia |].
    rewrite length_createNoisyTestImage. exact Hl.
Qed.

Lemma noisy_image_noise_bounded_witness :
  (forall k : nat, 0 <= (fun _ => 1 # 3) k < 1)%Q /\ bytes_ok [10; 250; 30; 255] = true /\
  forall j, Z.abs (nth j (data (MeanFilter.createNoisyTestImage (fun _ => 1 # 3)
                        (mkImageData 1 1 [10; 250; 30; 255]))) 0 - nth j [10; 250; 30; 255] 0) <= 50.
Proof.
  assert (Hr : forall k : nat, (0 <= (fun _ => 1 # 3) k < 1)%Q)
    by (intros k; split; unfold Qle, Qlt; simpl; lia).
  split; [exact Hr|]. split; [vm_compute; reflexivity|].
  exact (noisy_image_noise_bounded (fun _ => 1 # 3) (mkImageData 1 1 [10; 250; 30; 255]) Hr
           ltac:(vm_compute; reflexivity)).
Defined.
